(** * The MMO game worker: shared-state coordination over a key-value store

    A shallow embedding of the worker script (the router handlers and their
    KV helper functions) together with the properties its specification
    states about them.

    Modelling conventions.
    - The key-value store [me.puter.kv] holds three keys.  Each key is a
      field of [World]; [None] is the absent (null) value of a key that was
      never written.
    - Every [kv.get]/[kv.set] may reject.  The field [faults] is the
      schedule of the coming store calls: the head says whether the next
      call rejects, and an exhausted schedule means the store works.  A
      [kv.set] that rejects has written nothing.
    - [trace] records the calls a handler makes on its collaborators (the
      store, the request body, the identity lookup), oldest first.
    - An [async] function is a computation [M A]: it takes a world and
      gives back a returned value or a thrown exception, and a new world.
    - The players object written under the players key is a finite map from
      identity to player record ([gmap string Player.t]); the order in
      which a JS [Map] enumerates is not modelled.
    - JS numbers read from a request body are [jsnum]: a finite value (a
      rational, which covers every finite double), an infinity or NaN.
    - JS strings inspected by the code (chat bodies, the avatar) are lists
      of UTF-16 code units; identities and display names are opaque. *)

From Stdlib Require Import ZArith QArith Qround Lqa.
From stdpp Require Import gmap strings list fin_maps.

Local Open Scope Z_scope.
Local Open Scope nat_scope.

(** ** Configuration *)

Definition MAX_CHAT_HISTORY : nat := 100.
Definition MAX_CHAT_DISPLAY : nat := 50.
Definition PLAYER_TIMEOUT : Z := 30000.

(** The client's grid size (constant of the game client script); the
    worker script has no such constant. *)
Definition GRID_SIZE : Z := 500.

Inductive kv_key := KV_PLAYERS_KEY | KV_CHAT_KEY | KV_STATS_KEY.

(** ** JS values *)

Inductive jsnum :=
| NFin (q : Q)
| NInf (negative : bool)
| NNaN.

Definition jsstring := list N.

Inductive jsval :=
| VUndefined
| VNull
| VBool (b : bool)
| VNum (n : jsnum)
| VStr (s : jsstring)
| VObj.

(** ToBoolean *)
Definition truthy (v : jsval) : bool :=
  match v with
  | VUndefined | VNull => false
  | VBool b => b
  | VNum (NFin q) => negb (Qeq_bool q 0)
  | VNum (NInf _) => true
  | VNum NNaN => false
  | VStr s => match s with [] => false | _ => true end
  | VObj => true
  end.

(** [Math.round]: the integral number closest to the argument, the one
    closer to +infinity when two are equally close. *)
Definition Math_round (n : jsnum) : jsnum :=
  match n with
  | NFin q => NFin (inject_Z (Qfloor (q + (1 # 2))%Q))
  | NInf s => NInf s
  | NNaN => NNaN
  end.

(** White space and line terminators of ECMAScript, as code units: what
    [String.prototype.trim] strips. *)
Definition is_white_space (c : N) : bool :=
  let c := Z.of_N c in
  ((c =? 9) || (c =? 10) || (c =? 11) || (c =? 12) || (c =? 13) || (c =? 32)
   || (c =? 160) || (c =? 5760) || ((8192 <=? c) && (c <=? 8202))
   || (c =? 8232) || (c =? 8233) || (c =? 8239) || (c =? 8287)
   || (c =? 12288) || (c =? 65279))%Z.

Fixpoint trimStart (s : jsstring) : jsstring :=
  match s with
  | [] => []
  | c :: rest => if is_white_space c then trimStart rest else s
  end.

Definition trimEnd (s : jsstring) : jsstring := rev (trimStart (rev s)).

Definition trim (s : jsstring) : jsstring := trimEnd (trimStart s).

(** [s.substring(0, n)] *)
Definition substring0 (n : nat) (s : jsstring) : jsstring := take n s.

(** [a.slice(-n)]: the last [n] elements; [-0] is [0], so [slice(-0)] is
    the whole array. *)
Definition slice_last {A} (n : nat) (a : list A) : list A :=
  match n with
  | O => a
  | _ => drop (length a - n) a
  end.

(** Addition of two positive doubles: the exact sum rounded to a 53-bit
    significand, to nearest, ties to even (normal range, no overflow). *)
Definition fl53 (q : Q) : Q :=
  if Qle_bool q 0 then q
  else
    let e0 := (Z.log2 (Qnum q) - Z.log2 (Z.pos (Qden q)))%Z in
    let e := if Qle_bool (Qpower 2 e0) q then e0 else (e0 - 1)%Z in
    let ulp := Qpower 2 (e - 52) in
    let m := (q / ulp)%Q in
    let f := Qfloor m in
    let rest := (m - inject_Z f)%Q in
    let r :=
      match (rest ?= (1 # 2))%Q with
      | Lt => f
      | Gt => (f + 1)%Z
      | Eq => if Z.even f then f else (f + 1)%Z
      end in
    Qred (inject_Z r * ulp)%Q.

(** ** Records *)

Record UserInfo := { uuid : string; user_username : string }.

Module Player.
Record t := mk {
  id : string;
  username : string;
  emoji : jsval;
  x : jsnum;
  y : jsnum;
  lastUpdate : Z }.
End Player.

Module ChatMessage.
Record t := mk {
  id : Q;
  username : string;
  message : jsstring;
  timestamp : Z;
  userId : string }.
End ChatMessage.

Module GameStats.
Record t := mk {
  activePlayers : nat;
  totalMessages : nat;
  lastUpdate : Z }.
End GameStats.

(** ** The world: store, fault schedule, trace *)

Inductive event :=
| KvGet (k : kv_key)
| KvSet (k : kv_key)
| ReadBody
| GetUser.

Record World := mkWorld {
  kv_players : option (gmap string Player.t);
  kv_chat : option (list ChatMessage.t);
  kv_stats : option GameStats.t;
  faults : list bool;
  trace : list event }.

Definition with_players (v : gmap string Player.t) (w : World) : World :=
  mkWorld (Some v) (kv_chat w) (kv_stats w) (faults w) (trace w).
Definition with_chat (v : list ChatMessage.t) (w : World) : World :=
  mkWorld (kv_players w) (Some v) (kv_stats w) (faults w) (trace w).
Definition with_stats (v : GameStats.t) (w : World) : World :=
  mkWorld (kv_players w) (kv_chat w) (Some v) (faults w) (trace w).
Definition with_faults (fs : list bool) (w : World) : World :=
  mkWorld (kv_players w) (kv_chat w) (kv_stats w) fs (trace w).
Definition log_event (e : event) (w : World) : World :=
  mkWorld (kv_players w) (kv_chat w) (kv_stats w) (faults w) (trace w ++ [e]).

(** ** Async computations with exceptions *)

Inductive outcome (A : Type) :=
| Returned (a : A)
| Thrown.
Arguments Returned {A} a.
Arguments Thrown {A}.

Definition M (A : Type) : Type := World -> outcome A * World.

Definition ret {A} (a : A) : M A := fun w => (Returned a, w).

Definition bind {A B} (c : M A) (k : A -> M B) : M B :=
  fun w =>
    match c w with
    | (Returned a, w') => k a w'
    | (Thrown, w') => (Thrown, w')
    end.

(** [try { body } catch (error) { handler }] *)
Definition try_catch {A} (body handler : M A) : M A :=
  fun w =>
    match body w with
    | (Returned a, w') => (Returned a, w')
    | (Thrown, w') => handler w'
    end.

Declare Scope async_scope.
Delimit Scope async_scope with async.
Notation "x <- c ;; k" := (bind c (fun x => k))
  (at level 100, c at next level, right associativity) : async_scope.
Notation "c ;;; k" := (bind c (fun _ => k))
  (at level 100, right associativity) : async_scope.
Local Open Scope async_scope.

(** One call on the store: it is recorded, consumes the head of the fault
    schedule and rejects when that head says so. *)
Definition kv_call (e : event) : M unit :=
  fun w =>
    let w1 := log_event e w in
    match faults w1 with
    | [] => (Returned tt, w1)
    | false :: fs => (Returned tt, with_faults fs w1)
    | true :: fs => (Thrown, with_faults fs w1)
    end.

Definition kv_get_players : M (option (gmap string Player.t)) :=
  kv_call (KvGet KV_PLAYERS_KEY) ;;; fun w => (Returned (kv_players w), w).

Definition kv_set_players (v : gmap string Player.t) : M unit :=
  kv_call (KvSet KV_PLAYERS_KEY) ;;; fun w => (Returned tt, with_players v w).

Definition kv_get_chat : M (option (list ChatMessage.t)) :=
  kv_call (KvGet KV_CHAT_KEY) ;;; fun w => (Returned (kv_chat w), w).

Definition kv_set_chat (v : list ChatMessage.t) : M unit :=
  kv_call (KvSet KV_CHAT_KEY) ;;; fun w => (Returned tt, with_chat v w).

Definition kv_set_stats (v : GameStats.t) : M unit :=
  kv_call (KvSet KV_STATS_KEY) ;;; fun w => (Returned tt, with_stats v w).

(** ** Helper functions for KV operations *)

Definition getPlayers : M (gmap string Player.t) :=
  try_catch
    (playersData <- kv_get_players ;;
     ret (match playersData with
          | Some obj => obj
          | None => ∅
          end))
    (ret ∅).

Definition savePlayers (players : gmap string Player.t) : M unit :=
  try_catch (kv_set_players players) (ret tt).

Definition getChatHistory : M (list ChatMessage.t) :=
  try_catch
    (chatData <- kv_get_chat ;;
     ret (match chatData with
          | Some a => a
          | None => []
          end))
    (ret []).

Definition saveChatHistory (chatHistory : list ChatMessage.t) : M unit :=
  try_catch (kv_set_chat chatHistory) (ret tt).

Definition updateGameStats (now : Z) : M GameStats.t :=
  try_catch
    (players <- getPlayers ;;
     chatHistory <- getChatHistory ;;
     let stats := GameStats.mk (size players) (length chatHistory) now in
     kv_set_stats stats ;;;
     ret stats)
    (ret (GameStats.mk 0 0 now)).

(** ** Requests and responses *)

Module PositionBody.
Record t := mk { x : jsval; y : jsval; emoji : jsval }.
End PositionBody.

Module ChatBody.
Record t := mk { message : jsval }.
End ChatBody.

(** The [user] argument of a handler: [None] when [!user || !user.puter]
    holds; otherwise what [user.puter.auth.getUser()] resolves to, [None]
    when that lookup rejects. *)
Definition User := option (option UserInfo).

(** [await request.json()] followed by the destructuring of the body;
    [None] when either throws.  A field absent from the body is
    [VUndefined]. *)
Definition request_json {B} (request : option B) : M B :=
  fun w =>
    let w1 := log_event ReadBody w in
    match request with
    | Some body => (Returned body, w1)
    | None => (Thrown, w1)
    end.

Definition getUser (auth : option UserInfo) : M UserInfo :=
  fun w =>
    let w1 := log_event GetUser w in
    match auth with
    | Some userInfo => (Returned userInfo, w1)
    | None => (Thrown, w1)
    end.

(** A handler's answer: a plain object (HTTP 200) or a [Response] with an
    explicit status. *)
Inductive response :=
| PlayersList (players : list Player.t) (count : nat) (timestamp : Z)
| PositionUpdated (playerId : string) (x y : jsnum) (totalPlayers : nat)
| ChatMessages (messages : list ChatMessage.t) (totalMessages : nat)
    (timestamp : Z)
| ChatSent (message : ChatMessage.t) (totalMessages : nat)
| CleanupDone (removedPlayers activePlayers : nat) (timestamp : Z)
| LoggedOut (playerRemoved : bool) (playerId : string)
    (remainingPlayers : nat)
| ErrorResponse (status : nat) (error : string).

Definition status (r : response) : nat :=
  match r with
  | ErrorResponse s _ => s
  | _ => 200
  end.

(** ** GET /api/players *)

Definition get_players (now : Z) : M response :=
  try_catch
    (players <- getPlayers ;;
     let playerList := (map_to_list players).*2 in
     ret (PlayersList playerList (length playerList) now))
    (ret (ErrorResponse 500 "Server error")).

(** ** POST /api/player/position *)

Definition post_position (user : User) (request : option PositionBody.t)
    (now : Z) : M response :=
  match user with
  | None => ret (ErrorResponse 401 "Authentication required")
  | Some auth =>
    try_catch
      (body <- request_json request ;;
       userInfo <- getUser auth ;;
       match PositionBody.x body, PositionBody.y body with
       | VNum x, VNum y =>
         if negb (truthy (PositionBody.emoji body))
         then ret (ErrorResponse 400 "Invalid position data")
         else
           players <- getPlayers ;;
           let players :=
             <[uuid userInfo :=
                 Player.mk (uuid userInfo) (user_username userInfo)
                   (PositionBody.emoji body) (Math_round x) (Math_round y)
                   now]> players in
           savePlayers players ;;;
           ret (PositionUpdated (uuid userInfo) (Math_round x) (Math_round y)
                  (size players))
       | _, _ => ret (ErrorResponse 400 "Invalid position data")
       end)
      (ret (ErrorResponse 500 "Server error"))
  end.

(** ** GET /api/chat *)

Definition get_chat (now : Z) : M response :=
  try_catch
    (chatHistory <- getChatHistory ;;
     ret (ChatMessages (slice_last MAX_CHAT_DISPLAY chatHistory)
            (length chatHistory) now))
    (ret (ErrorResponse 500 "Server error")).

(** The tail read of the chat log with the limit as a parameter;
    [get_chat] is this read at [MAX_CHAT_DISPLAY]. *)
Definition chat_tail (limit : nat) : M (list ChatMessage.t) :=
  chatHistory <- getChatHistory ;;
  ret (slice_last limit chatHistory).

(** ** POST /api/chat *)

(** [Date.now() + Math.random()] *)
Definition chat_id (now : Z) (random : Q) : Q :=
  fl53 (inject_Z now + random)%Q.

(** [chatHistory.push(chatMessage)] followed by the cap: one [shift()]
    when the length exceeds [MAX_CHAT_HISTORY]. *)
Definition push_capped (chatHistory : list ChatMessage.t)
    (chatMessage : ChatMessage.t) : list ChatMessage.t :=
  let chatHistory := chatHistory ++ [chatMessage] in
  if MAX_CHAT_HISTORY <? length chatHistory then tail chatHistory
  else chatHistory.

(** [now] and [random] are the readings of [Date.now()] and
    [Math.random()] that make the id, [date] the instant of [new Date()]
    (its ISO-8601 rendering is not modelled). *)
Definition post_chat (user : User) (request : option ChatBody.t)
    (now : Z) (random : Q) (date : Z) : M response :=
  match user with
  | None => ret (ErrorResponse 401 "Authentication required")
  | Some auth =>
    try_catch
      (body <- request_json request ;;
       userInfo <- getUser auth ;;
       match ChatBody.message body with
       | VStr message =>
         if negb (truthy (VStr message)) || (length (trim message) =? 0)
         then ret (ErrorResponse 400 "Invalid message")
         else
           let sanitizedMessage := substring0 200 (trim message) in
           let chatMessage :=
             ChatMessage.mk (chat_id now random) (user_username userInfo)
               sanitizedMessage date (uuid userInfo) in
           chatHistory <- getChatHistory ;;
           let chatHistory := push_capped chatHistory chatMessage in
           saveChatHistory chatHistory ;;;
           ret (ChatSent chatMessage (length chatHistory))
       | _ => ret (ErrorResponse 400 "Invalid message")
       end)
      (ret (ErrorResponse 500 "Server error"))
  end.

(** ** POST /api/cleanup *)

(** The loop over [players.entries()]: every entry of the collection is
    visited once (deleting the entry being visited does not disturb a JS
    [Map] iteration), stale ones are deleted and counted.  The handler
    compares with the constant [PLAYER_TIMEOUT]; it is the parameter
    [timeout] here. *)
Fixpoint sweep_loop (now timeout : Z) (entries : list (string * Player.t))
    (players : gmap string Player.t) (removedCount : nat)
    : gmap string Player.t * nat :=
  match entries with
  | [] => (players, removedCount)
  | (id, player) :: rest =>
    if (timeout <? now - Player.lastUpdate player)%Z
    then sweep_loop now timeout rest (delete id players) (S removedCount)
    else sweep_loop now timeout rest players removedCount
  end.

Definition sweep (now timeout : Z) (players : gmap string Player.t)
    : gmap string Player.t * nat :=
  sweep_loop now timeout (map_to_list players) players 0.

Definition post_cleanup (now statsNow : Z) : M response :=
  try_catch
    (players <- getPlayers ;;
     let '(players, removedCount) := sweep now PLAYER_TIMEOUT players in
     savePlayers players ;;;
     updateGameStats statsNow ;;;
     ret (CleanupDone removedCount (size players) now))
    (ret (ErrorResponse 500 "Server error")).

(** ** POST /api/player/logout *)

Definition post_logout (user : User) (statsNow : Z) : M response :=
  match user with
  | None => ret (ErrorResponse 401 "Authentication required")
  | Some auth =>
    try_catch
      (userInfo <- getUser auth ;;
       players <- getPlayers ;;
       let removed := bool_decide (is_Some (players !! uuid userInfo)) in
       let players := delete (uuid userInfo) players in
       savePlayers players ;;;
       updateGameStats statsNow ;;;
       ret (LoggedOut removed (uuid userInfo) (size players)))
      (ret (ErrorResponse 500 "Server error"))
  end.

(** * Vocabulary of the properties *)

(** ** Reading the world *)

(** The players collection and the chat sequence as a reader sees them: an
    unwritten key reads as the empty collection. *)
Definition players_of (w : World) : gmap string Player.t :=
  default ∅ (kv_players w).

Definition chat_of (w : World) : list ChatMessage.t :=
  default [] (kv_chat w).

(** Whether the next call on the store rejects. *)
Definition rejects_next (w : World) : bool :=
  match faults w with
  | true :: _ => true
  | _ => false
  end.

(** The store content, without schedule and trace. *)
Definition same_store (w1 w2 : World) : Prop :=
  kv_players w1 = kv_players w2 /\ kv_chat w1 = kv_chat w2
  /\ kv_stats w1 = kv_stats w2.

(** An entry the sweep at [now] with [timeout] must remove. *)
Definition stale (now timeout : Z) (player : Player.t) : Prop :=
  (timeout < now - Player.lastUpdate player)%Z.

#[global] Instance stale_dec now timeout player :
  Decision (stale now timeout player) :=
  Z_lt_dec timeout (now - Player.lastUpdate player).

(** One authenticated chat send whose body is a string, with the readings
    of the clock and of the random source it makes. *)
Record ChatCall := {
  call_user : UserInfo;
  call_body : jsstring;
  call_now : Z;
  call_random : Q;
  call_date : Z }.

(** The message such a call creates. *)
Definition call_message (c : ChatCall) : ChatMessage.t :=
  ChatMessage.mk (chat_id (call_now c) (call_random c))
    (user_username (call_user c)) (substring0 200 (trim (call_body c)))
    (call_date c) (uuid (call_user c)).

Definition send (c : ChatCall) : M response :=
  post_chat (Some (Some (call_user c)))
    (Some (ChatBody.mk (VStr (call_body c))))
    (call_now c) (call_random c) (call_date c).

(** The calls handled one after the other. *)
Fixpoint send_all (calls : list ChatCall) (w : World) : World :=
  match calls with
  | [] => w
  | c :: rest => send_all rest (send c w).2
  end.

(** Sample data: two users, a store with three players and two messages,
    and a run of chat calls with one-letter bodies. *)
Definition ada : UserInfo := {| uuid := "u-ada"; user_username := "Ada" |}.
Definition bob : UserInfo := {| uuid := "u-bob"; user_username := "Bob" |}.

Definition sample_players : gmap string Player.t :=
  {[ "u-ada" := Player.mk "u-ada" "Ada" (VStr [55357%N; 56898%N])
                  (NFin 10) (NFin 20) 1000;
     "u-bob" := Player.mk "u-bob" "Bob" (VStr [9786%N])
                  (NFin 250) (NFin 250) 31000;
     "u-eve" := Player.mk "u-eve" "Eve" (VStr [9786%N])
                  (NFin 0) (NFin 500) 70000 ]}.

Definition sample_chat : list ChatMessage.t :=
  [ ChatMessage.mk 1 "Ada" [104%N; 105%N] 1 "u-ada";
    ChatMessage.mk 2 "Bob" [121%N; 111%N] 2 "u-bob" ].

Definition sample_world (fs : list bool) : World :=
  mkWorld (Some sample_players) (Some sample_chat) None fs [].

Definition sample_call (i : nat) : ChatCall :=
  {| call_user := ada; call_body := [N.of_nat (97 + i mod 26)];
     call_now := Z.of_nat (5000 + i); call_random := 1 # 4;
     call_date := Z.of_nat (5000 + i) |}.

Definition sample_calls (n : nat) : list ChatCall := sample_call <$> seq 0 n.

(** A coordinate that is an integer of the grid, [0 <= n <= GRID_SIZE]. *)
Definition within_grid (n : jsnum) : bool :=
  match n with
  | NFin q =>
    Qeq_bool q (inject_Z (Qfloor q)) && Qle_bool 0 q
    && Qle_bool q (inject_Z GRID_SIZE)
  | _ => false
  end.

(** [z] is the integer nearest to [q], the upper one on a tie. *)
Definition nearest_integer (q : Q) (z : Z) : Prop :=
  (q - (1 # 2) < inject_Z z /\ inject_Z z <= q + (1 # 2))%Q.

Definition smiley : jsval := VStr [55357%N; 56898%N].

(** Position bodies: inside the grid, outside of it, and with the number
    that [JSON.parse] reads from [1e999]. *)
Definition centre_request : PositionBody.t :=
  PositionBody.mk (VNum (NFin 30)) (VNum (NFin 40)) smiley.

Definition off_grid_request : PositionBody.t :=
  PositionBody.mk (VNum (NFin 1000)) (VNum (NFin (-7))) smiley.

Definition overflowing_request : PositionBody.t :=
  PositionBody.mk (VNum (NInf false)) (VNum (NFin 20)) smiley.

(** Chat calls: three spaces, 500 times the letter x, and two calls in
    the same millisecond whose random draws differ by [2^-20]. *)
Definition blank_call : ChatCall :=
  {| call_user := ada; call_body := [32%N; 32%N; 32%N];
     call_now := 5000; call_random := 1 # 4; call_date := 5000 |}.

Definition long_call : ChatCall :=
  {| call_user := ada; call_body := replicate 500 120%N;
     call_now := 5000; call_random := 1 # 4; call_date := 5000 |}.

Definition same_ms : Z := 1762153200000.

Definition first_call : ChatCall :=
  {| call_user := ada; call_body := [104%N; 105%N];
     call_now := same_ms; call_random := 1 # 2; call_date := same_ms |}.

Definition second_call : ChatCall :=
  {| call_user := bob; call_body := [121%N; 111%N];
     call_now := same_ms; call_random := (1 # 2) + (1 # 1048576);
     call_date := same_ms |}.

(** * The remaining endpoints of the worker *)

(** The answers of the diagnostic endpoints.  [ReportError] is the
    [Response] with status 500 of GET /api/stats; [HealthError] and
    [ApiError] are the plain objects with [status: 'error'] that
    GET /health and GET /api return from their [catch] blocks. *)
Inductive report :=
| StatsReport (activePlayers totalMessages : nat)
    (recentMessages : list (string * Z)) (uptime : Z)
| HealthOk (players messages : nat) (timestamp : Z)
| HealthError (timestamp : Z)
| ApiDoc (activePlayers totalMessages : nat) (lastUpdate : Z)
| ApiError
| ReportError (status : nat) (error : string).

(** [msg => ({ username: msg.username, timestamp: msg.timestamp })] *)
Definition recent_entry (msg : ChatMessage.t) : string * Z :=
  (ChatMessage.username msg, ChatMessage.timestamp msg).

Definition get_stats (now : Z) : M report :=
  try_catch
    (players <- getPlayers ;;
     chatHistory <- getChatHistory ;;
     ret (StatsReport (size players) (length chatHistory)
            (recent_entry <$> slice_last 5 chatHistory) now))
    (ret (ReportError 500 "Server error")).

Definition get_health (now : Z) : M report :=
  try_catch
    (players <- getPlayers ;;
     chatHistory <- getChatHistory ;;
     ret (HealthOk (size players) (length chatHistory) now))
    (ret (HealthError now)).

Definition get_api (now : Z) : M report :=
  try_catch
    (players <- getPlayers ;;
     chatHistory <- getChatHistory ;;
     ret (ApiDoc (size players) (length chatHistory) now))
    (ret ApiError).

(** * The game client: movement and chat input *)

Definition PLAYER_SIZE : Q := 20.
Definition MOVE_SPEED : Q := 20.

(** [e.key] of a [keydown] event, as [handleKeyPress] tells keys apart. *)
Inductive Key := ArrowUp | ArrowDown | ArrowLeft | ArrowRight | OtherKey.

(** [Math.max] and [Math.min] on finite numbers. *)
Definition Math_max (a b : Q) : Q := if Qle_bool a b then b else a.
Definition Math_min (a b : Q) : Q := if Qle_bool a b then a else b.

(** The fields of [gameState] that movement and the position update read
    and write. *)
Record GameState := {
  selectedEmoji : jsval;
  position_x : Q;
  position_y : Q;
  gameStarted : bool }.

(** The initial [gameState] once an avatar is chosen and the game has
    started: the centre of the grid. *)
Definition started (avatar : jsval) : GameState :=
  {| selectedEmoji := avatar; position_x := 250; position_y := 250;
     gameStarted := true |}.

Definition handleKeyPress (e : Key) (gs : GameState) : GameState :=
  if negb (gameStarted gs) then gs
  else
    let newX := position_x gs in
    let newY := position_y gs in
    match e with
    | ArrowUp =>
      {| selectedEmoji := selectedEmoji gs; position_x := newX;
         position_y := Math_max (PLAYER_SIZE / 2) (newY - MOVE_SPEED);
         gameStarted := gameStarted gs |}
    | ArrowDown =>
      {| selectedEmoji := selectedEmoji gs; position_x := newX;
         position_y :=
           Math_min (inject_Z GRID_SIZE - PLAYER_SIZE / 2) (newY + MOVE_SPEED);
         gameStarted := gameStarted gs |}
    | ArrowLeft =>
      {| selectedEmoji := selectedEmoji gs;
         position_x := Math_max (PLAYER_SIZE / 2) (newX - MOVE_SPEED);
         position_y := newY; gameStarted := gameStarted gs |}
    | ArrowRight =>
      {| selectedEmoji := selectedEmoji gs;
         position_x :=
           Math_min (inject_Z GRID_SIZE - PLAYER_SIZE / 2) (newX + MOVE_SPEED);
         position_y := newY; gameStarted := gameStarted gs |}
    | OtherKey => gs
    end.

(** The keys pressed one after the other. *)
Definition press_all (keys : list Key) (gs : GameState) : GameState :=
  foldl (fun gs e => handleKeyPress e gs) gs keys.

(** The body [updatePlayerPosition] posts to /api/player/position. *)
Definition updatePlayerPosition_body (gs : GameState) : PositionBody.t :=
  PositionBody.mk (VNum (NFin (position_x gs))) (VNum (NFin (position_y gs)))
    (selectedEmoji gs).

(** The body [sendChatMessage] posts to /api/chat for the content of the
    input field, [None] when it returns without sending (the worker URL is
    taken to be set). *)
Definition sendChatMessage_body (input : jsstring) : option ChatBody.t :=
  let message := trim input in
  if negb (truthy (VStr message)) then None
  else Some (ChatBody.mk (VStr message)).

(** * Vocabulary of the further properties *)

(** The status of a diagnostic answer: only [ReportError] is a [Response]
    with a status of its own. *)
Definition report_status (r : report) : nat :=
  match r with
  | ReportError s _ => s
  | _ => 200
  end.

(** Every event is a [kv.get]. *)
Definition only_gets (es : list event) : Prop :=
  Forall (fun e => exists k, e = KvGet k) es.

(** No event is a call on the store. *)
Definition no_store_call (es : list event) : Prop :=
  Forall (fun e => e = ReadBody \/ e = GetUser) es.

(** The record an upsert by [userInfo] at [now] writes. *)
Definition upserted (userInfo : UserInfo) (x y : jsnum) (emoji : jsval)
    (now : Z) : Player.t :=
  Player.mk (uuid userInfo) (user_username userInfo) emoji
    (Math_round x) (Math_round y) now.

(** A position of the client's playing field: both coordinates between
    [PLAYER_SIZE / 2] and [GRID_SIZE - PLAYER_SIZE / 2]. *)
Definition on_field (gs : GameState) : Prop :=
  (PLAYER_SIZE / 2 <= position_x gs
   /\ position_x gs <= inject_Z GRID_SIZE - PLAYER_SIZE / 2
   /\ PLAYER_SIZE / 2 <= position_y gs
   /\ position_y gs <= inject_Z GRID_SIZE - PLAYER_SIZE / 2)%Q.

(** Both coordinates are whole numbers. *)
Definition on_lattice (gs : GameState) : Prop :=
  exists zx zy : Z,
    (position_x gs == inject_Z zx /\ position_y gs == inject_Z zy)%Q.

(** [typeof v === 'number'] *)
Definition typeof_number (v : jsval) : bool :=
  match v with
  | VNum _ => true
  | _ => false
  end.

(** Every record of the collection is stored under its own [id]. *)
Definition well_keyed (players : gmap string Player.t) : Prop :=
  forall k p, players !! k = Some p -> Player.id p = k.

(** What a handler can leave under the players key, whatever the store
    does: the old value, or the collection [f base] it computed from the
    fetched one, [base] being the persisted collection or the empty one. *)
Definition players_written (f : gmap string Player.t -> gmap string Player.t)
    (w w' : World) : Prop :=
  kv_players w' = kv_players w
  \/ kv_players w' = Some (f (players_of w))
  \/ kv_players w' = Some (f ∅).

(** The two halves of the read-modify-write of a valid upsert, between
    which the handler is suspended ([await getPlayers()], then
    [players.set] and [await savePlayers(players)]). *)
Definition upsert_read : M (gmap string Player.t) := getPlayers.

Definition upsert_write (userInfo : UserInfo) (x y : jsnum) (emoji : jsval)
    (now : Z) (players : gmap string Player.t) : M response :=
  let players :=
    <[uuid userInfo :=
        Player.mk (uuid userInfo) (user_username userInfo) emoji
          (Math_round x) (Math_round y) now]> players in
  savePlayers players ;;;
  ret (PositionUpdated (uuid userInfo) (Math_round x) (Math_round y)
         (size players)).

(** Two upserts whose reads both come before either write. *)
Definition racing_upserts (a b : UserInfo) (xa ya xb yb : jsnum)
    (ea eb : jsval) (ta tb : Z) : M (response * response) :=
  players_a <- upsert_read ;;
  players_b <- upsert_read ;;
  answer_a <- upsert_write a xa ya ea ta players_a ;;
  answer_b <- upsert_write b xb yb eb tb players_b ;;
  ret (answer_a, answer_b).

(** * Properties *)

(** ** The helpers on a working and on a failing store *)

(** One fetch helper run on a world whose next store call is known. *)
Ltac run_fetch w H :=
  destruct w as [ps ch st fs tr]; simpl in *;
  destruct fs as [|[] fs]; try discriminate H; eexists;
  (split; [reflexivity | repeat split]).

Lemma getPlayers_ok (w : World) :
  rejects_next w = false ->
  exists w', getPlayers w = (Returned (players_of w), w')
             /\ same_store w w' /\ faults w' = tail (faults w)
             /\ trace w' = trace w ++ [KvGet KV_PLAYERS_KEY].
Proof. intros H. run_fetch w H. Qed.

Lemma getPlayers_failed (w : World) :
  rejects_next w = true ->
  exists w', getPlayers w = (Returned ∅, w')
             /\ same_store w w' /\ faults w' = tail (faults w)
             /\ trace w' = trace w ++ [KvGet KV_PLAYERS_KEY].
Proof. intros H. run_fetch w H. Qed.

Lemma getChatHistory_ok (w : World) :
  rejects_next w = false ->
  exists w', getChatHistory w = (Returned (chat_of w), w')
             /\ same_store w w' /\ faults w' = tail (faults w)
             /\ trace w' = trace w ++ [KvGet KV_CHAT_KEY].
Proof. intros H. run_fetch w H. Qed.

Lemma getChatHistory_failed (w : World) :
  rejects_next w = true ->
  exists w', getChatHistory w = (Returned [], w')
             /\ same_store w w' /\ faults w' = tail (faults w)
             /\ trace w' = trace w ++ [KvGet KV_CHAT_KEY].
Proof. intros H. run_fetch w H. Qed.

(** ** Reads on a fresh store, reads on a failing store *)

(** C10. A key that was never written reads as the empty collection: when
    the store answers the fetch with the absent value, [getPlayers] gives
    the empty map and [getChatHistory] the empty sequence, so that
    GET /api/players answers with no player and count 0 and GET /api/chat
    with no message and totalMessages 0, both with status 200. *)
Theorem unwritten_key_reads_empty (w : World) (now : Z) :
  rejects_next w = false ->
  (kv_players w = None ->
     (getPlayers w).1 = Returned ∅
     /\ (get_players now w).1 = Returned (PlayersList [] 0 now)
     /\ status (PlayersList [] 0 now) = 200)
  /\ (kv_chat w = None ->
     (getChatHistory w).1 = Returned []
     /\ (get_chat now w).1 = Returned (ChatMessages [] 0 now)
     /\ status (ChatMessages [] 0 now) = 200).
Proof.
  intros Hok. split; intros Hnone.
  - destruct (getPlayers_ok w Hok) as (w' & Hget & _).
    unfold get_players, try_catch, bind. rewrite Hget.
    unfold players_of. rewrite Hnone. simpl.
    rewrite map_to_list_empty. auto.
  - destruct (getChatHistory_ok w Hok) as (w' & Hget & _).
    unfold get_chat, try_catch, bind. rewrite Hget.
    unfold chat_of. rewrite Hnone. simpl. auto.
Qed.

Lemma unwritten_key_reads_empty_witness :
  let w := mkWorld None None None [false; true] [] in
  (getPlayers w).1 = Returned ∅
  /\ (get_chat 7 w).1 = Returned (ChatMessages [] 0 7).
Proof.
  pose proof (unwritten_key_reads_empty
                (mkWorld None None None [false; true] []) 7 eq_refl)
    as [Hp Hc].
  split; [apply (Hp eq_refl) | apply (Hc eq_refl)].
Defined.

(** C8. When the fetch of the players collection fails, GET /api/players
    does not propagate the failure: it answers with status 200, an empty
    list of players and count 0, whatever the store holds. *)
Theorem listActive_degrades_to_empty (w : World) (now : Z) :
  rejects_next w = true ->
  (getPlayers w).1 = Returned ∅
  /\ (get_players now w).1 = Returned (PlayersList [] 0 now)
  /\ status (PlayersList [] 0 now) = 200.
Proof.
  intros Hfail.
  destruct (getPlayers_failed w Hfail) as (w' & Hget & _).
  unfold get_players, try_catch, bind. rewrite Hget. simpl.
  rewrite map_to_list_empty. auto.
Qed.

(** ** Authentication comes first *)



Lemma listActive_degrades_to_empty_witness :
  let w := mkWorld (Some {[ "ada" := Player.mk "ada" "Ada" VObj (NFin 3)
                                      (NFin 4) 1000 ]})
             None None [true] [] in
  (get_players 5 w).1 = Returned (PlayersList [] 0 5).
Proof.
  intros w.
  refine (proj1 (proj2 (listActive_degrades_to_empty w 5 _))).
  reflexivity.
Defined.

(** ** The TTL sweep *)

Section Sweep.
Variables now timeout : Z.

(** The loop, run over entries that are distinct keys of the collection
    it updates, deletes the stale ones among them and counts them. *)
Lemma sweep_loop_spec (entries : list (string * Player.t)) :
  forall (players : gmap string Player.t) (removedCount : nat),
    NoDup entries.*1 ->
    (forall id p, (id, p) ∈ entries -> players !! id = Some p) ->
    let r := sweep_loop now timeout entries players removedCount in
    (forall id p, r.1 !! id = Some p <->
       players !! id = Some p /\ ((id, p) ∈ entries -> ~ stale now timeout p))
    /\ r.2 + size r.1 = removedCount + size players.
Proof.
  induction entries as [|[id0 p0] rest IH]; intros players c Hnd Hin; simpl.
  - split; [|done]. intros id p. rewrite elem_of_nil. tauto.
  - apply NoDup_cons in Hnd as [Hfresh Hnd].
    assert (Hp0 : players !! id0 = Some p0) by (apply Hin; left).
    assert (Hrest : forall id p, (id, p) ∈ rest -> id <> id0).
    { intros id p Hel ->. apply Hfresh.
      apply list_elem_of_fmap. exists (id0, p). done. }
    destruct (Z.ltb_spec timeout (now - Player.lastUpdate p0)) as [Hs|Hs].
    + destruct (IH (delete id0 players) (S c) Hnd) as [Hl Hc].
      { intros id p Hel. rewrite lookup_delete_ne by (symmetry; eauto).
        apply Hin. by right. }
      split.
      * intros id p. rewrite Hl, elem_of_cons.
        destruct (decide (id = id0)) as [->|Hne].
        -- rewrite lookup_delete_eq. split; [intros [? _]; discriminate|].
           intros [Hm Hst]. rewrite Hp0 in Hm. injection Hm as <-.
           exfalso. apply Hst; [by left | exact Hs].
        -- rewrite lookup_delete_ne by done.
           split; intros [Hm Hst]; (split; [done|]).
           ++ intros [[= ? _]|Hel]; [done | auto].
           ++ intros Hel. apply Hst. by right.
      * rewrite Hc. rewrite map_size_delete_Some by (by rewrite Hp0).
        assert (size players <> 0); [|lia].
        apply map_size_non_empty_iff. intros ->.
        by rewrite lookup_empty in Hp0.
    + destruct (IH players c Hnd) as [Hl Hc].
      { intros id p Hel. apply Hin. by right. }
      split; [|exact Hc].
      intros id p. rewrite Hl, elem_of_cons. split.
      * intros [Hm Hst]. split; [done|].
        intros [[= -> ->]|Hel]; [unfold stale; lia | auto].
      * intros [Hm Hst]. split; [done|]. auto.
Qed.

Lemma sweep_lookup (players : gmap string Player.t) (id : string)
    (p : Player.t) :
  (sweep now timeout players).1 !! id = Some p <->
  players !! id = Some p /\ ~ stale now timeout p.
Proof.
  unfold sweep.
  destruct (sweep_loop_spec (map_to_list players) players 0) as [Hl _].
  - apply NoDup_fst_map_to_list.
  - intros k q. apply elem_of_map_to_list.
  - rewrite Hl. rewrite elem_of_map_to_list. tauto.
Qed.

Lemma sweep_is_filter (players : gmap string Player.t) :
  (sweep now timeout players).1 = filter (fun e => ~ stale now timeout e.2) players.
Proof.
  apply map_eq. intros id. apply option_eq. intros p.
  rewrite sweep_lookup, map_lookup_filter_Some. done.
Qed.

Lemma sweep_count (players : gmap string Player.t) :
  (sweep now timeout players).2 = size (filter (fun e => stale now timeout e.2) players).
Proof.
  pose proof (sweep_is_filter players) as Hf.
  unfold sweep in *.
  destruct (sweep_loop_spec (map_to_list players) players 0) as [_ Hc].
  - apply NoDup_fst_map_to_list.
  - intros k q. apply elem_of_map_to_list.
  - simpl in Hc. rewrite Hf in Hc.
    assert (Hsz : size players
                  = size (filter (fun e : string * Player.t => stale now timeout e.2)
                            players)
                    + size (filter (fun e : string * Player.t => ~ stale now timeout e.2)
                              players)).
    { rewrite <- map_size_disj_union
        by apply map_disjoint_filter_complement.
      by rewrite map_filter_union_complement. }
    lia.
Qed.

(** C2. For every players collection and every [now] and [timeout], the
    sweep removes exactly the entries with [now - lastUpdate > timeout]
    and leaves every other entry as it was; an entry with
    [now - lastUpdate = timeout] stays; the count returned is the number
    of entries removed. *)
Theorem sweep_removes_exactly_stale (players : gmap string Player.t) :
  let r := sweep now timeout players in
  (forall id p, players !! id = Some p ->
     (now - Player.lastUpdate p > timeout)%Z -> r.1 !! id = None)
  /\ (forall id p, players !! id = Some p ->
     ~ (now - Player.lastUpdate p > timeout)%Z -> r.1 !! id = Some p)
  /\ (forall id p, players !! id = Some p ->
     (now - Player.lastUpdate p = timeout)%Z -> r.1 !! id = Some p)
  /\ (forall id, players !! id = None -> r.1 !! id = None)
  /\ r.2 = size (filter (fun e => stale now timeout e.2) players)
  /\ r.2 + size r.1 = size players.
Proof.
  simpl. repeat split.
  - intros id p Hp Hs. apply eq_None_not_Some. intros [q Hq].
    apply sweep_lookup in Hq as [Hq Hns]. rewrite Hp in Hq.
    injection Hq as <-. apply Hns. unfold stale. lia.
  - intros id p Hp Hs. apply sweep_lookup. split; [done|].
    unfold stale. lia.
  - intros id p Hp Hs. apply sweep_lookup. split; [done|].
    unfold stale. lia.
  - intros id Hp. apply eq_None_not_Some. intros [q Hq].
    apply sweep_lookup in Hq as [Hq _]. by rewrite Hp in Hq.
  - apply sweep_count.
  - unfold sweep.
    destruct (sweep_loop_spec (map_to_list players) players 0) as [_ Hc].
    + apply NoDup_fst_map_to_list.
    + intros k q. apply elem_of_map_to_list.
    + exact Hc.
Qed.
End Sweep.

Lemma sweep_removes_exactly_stale_witness :
  (sweep 61000 30000 sample_players).1 !! "u-ada" = None
  /\ (sweep 61000 30000 sample_players).1 !! "u-bob"
     = sample_players !! "u-bob"
  /\ (sweep 61000 30000 sample_players).2
     + size (sweep 61000 30000 sample_players).1 = 3.
Proof.
  destruct (sweep_removes_exactly_stale 61000 30000 sample_players)
    as (Hstale & _ & Hedge & _ & _ & Hsize).
  split; [|split].
  - eapply Hstale; [vm_compute; reflexivity | reflexivity].
  - transitivity (Some (Player.mk "u-bob" "Bob" (VStr [9786%N])
                          (NFin 250) (NFin 250) 31000)).
    + apply Hedge; [vm_compute; reflexivity | reflexivity].
    + vm_compute; reflexivity.
  - exact Hsize.
Defined.

(** The sample collection swept at 61000 with a timeout of 30000: Ada
    (last update 1000) goes, Bob (31000, on the boundary) and Eve stay. *)
Example sweep_sample :
  (sweep 61000 30000 sample_players).2 = 1
  /\ (sweep 61000 30000 sample_players).1 !! "u-ada" = None
  /\ size (sweep 61000 30000 sample_players).1 = 2.
Proof. vm_compute. repeat split; reflexivity. Qed.

(** On a working store the cleanup handler persists what the sweep with
    [PLAYER_TIMEOUT] leaves and reports the sweep's count. *)
Lemma post_cleanup_sweeps (w : World) (now statsNow : Z) :
  faults w = [] ->
  exists w',
    post_cleanup now statsNow w
    = (Returned (CleanupDone (sweep now PLAYER_TIMEOUT (players_of w)).2
                   (size (sweep now PLAYER_TIMEOUT (players_of w)).1) now),
       w')
    /\ kv_players w' = Some (sweep now PLAYER_TIMEOUT (players_of w)).1
    /\ kv_chat w' = kv_chat w /\ faults w' = [].
Proof.
  intros Hf. destruct w as [ps ch st fs tr]; simpl in *; subst.
  unfold post_cleanup, try_catch, bind, getPlayers, try_catch, bind,
    players_of, default. simpl.
  destruct (sweep now PLAYER_TIMEOUT _) as [players' n].
  simpl. eexists. split; [reflexivity|]. simpl. auto.
Qed.

(** ** Logout *)

Lemma post_logout_ok (w : World) (userInfo : UserInfo) (statsNow : Z) :
  faults w = [] ->
  exists w',
    post_logout (Some (Some userInfo)) statsNow w
    = (Returned
         (LoggedOut (bool_decide (is_Some (players_of w !! uuid userInfo)))
            (uuid userInfo)
            (size (delete (uuid userInfo) (players_of w)))),
       w')
    /\ kv_players w' = Some (delete (uuid userInfo) (players_of w))
    /\ kv_chat w' = kv_chat w /\ faults w' = [].
Proof.
  intros Hf. destruct w as [ps ch st fs tr]; simpl in *; subst.
  eexists. split; [reflexivity|]. simpl. auto.
Qed.

(** C7. On a working store, logout reports [playerRemoved = true] exactly
    when the identity was in the players collection before the call; a
    second logout of the same identity right after the first is answered
    normally (status 200) with [playerRemoved = false], and leaves the
    collection as the first call left it. *)
Theorem remove_twice (w : World) (userInfo : UserInfo) (t1 t2 : Z) :
  faults w = [] ->
  exists w1 w2 n1 n2 removed,
    post_logout (Some (Some userInfo)) t1 w
    = (Returned (LoggedOut removed (uuid userInfo) n1), w1)
    /\ (removed = true <-> is_Some (players_of w !! uuid userInfo))
    /\ post_logout (Some (Some userInfo)) t2 w1
       = (Returned (LoggedOut false (uuid userInfo) n2), w2)
    /\ status (LoggedOut false (uuid userInfo) n2) = 200
    /\ players_of w1 = delete (uuid userInfo) (players_of w)
    /\ players_of w2 = players_of w1.
Proof.
  intros Hf.
  destruct (post_logout_ok w userInfo t1 Hf) as (w1 & H1 & Hp1 & _ & Hf1).
  destruct (post_logout_ok w1 userInfo t2 Hf1) as (w2 & H2 & Hp2 & _ & _).
  assert (Hw1 : players_of w1 = delete (uuid userInfo) (players_of w)).
  { unfold players_of at 1. by rewrite Hp1. }
  exists w1, w2. do 3 eexists.
  split; [exact H1|]. split; [apply bool_decide_eq_true|].
  rewrite H2, Hw1, lookup_delete_eq.
  split.
  { rewrite bool_decide_eq_false_2; [reflexivity|].
    intros [? ?]; discriminate. }
  split; [reflexivity|]. split; [reflexivity|].
  unfold players_of at 1. rewrite Hp2, Hw1. simpl.
  apply delete_id. apply lookup_delete_eq.
Qed.

Lemma remove_twice_witness :
  exists w1 w2 n1 n2,
    post_logout (Some (Some ada)) 5000 (sample_world [])
    = (Returned (LoggedOut true "u-ada" n1), w1)
    /\ post_logout (Some (Some ada)) 5001 w1
       = (Returned (LoggedOut false "u-ada" n2), w2).
Proof.
  destruct (remove_twice (sample_world []) ada 5000 5001 eq_refl)
    as (w1 & w2 & n1 & n2 & removed & H1 & Hiff & H2 & _).
  assert (Hrem : removed = true) by (apply Hiff; vm_compute; eauto).
  subst removed. exists w1, w2, n1, n2. split; [exact H1 | exact H2].
Defined.

(** ** The bounded chat log *)

Lemma tail_drop {A} (l : list A) : tail l = drop 1 l.
Proof. by destruct l. Qed.

(** A push drops at most one entry, from the front. *)
Lemma push_capped_drop (h : list ChatMessage.t) (m : ChatMessage.t) :
  exists d, push_capped h m = drop d (h ++ [m]) /\ d <= 1
            /\ (d = 1 <-> MAX_CHAT_HISTORY <= length h).
Proof.
  unfold push_capped.
  destruct (Nat.ltb_spec MAX_CHAT_HISTORY (length (h ++ [m]))) as [Hlt|Hge];
    rewrite length_app in *; simpl in *.
  - exists 1. rewrite tail_drop. split; [done|]. split; [done|]. lia.
  - exists 0. split; [done|]. split; lia.
Qed.

Lemma push_capped_length (h : list ChatMessage.t) (m : ChatMessage.t) :
  length (push_capped h m)
  = if decide (MAX_CHAT_HISTORY <= length h) then length h else S (length h).
Proof.
  destruct (push_capped_drop h m) as (d & -> & Hd & Hiff).
  rewrite length_drop, length_app. simpl.
  case_decide.
  - assert (d = 1) by tauto. lia.
  - assert (d <> 1) by tauto. lia.
Qed.

Lemma push_capped_bounded (h : list ChatMessage.t) (m : ChatMessage.t) :
  length h <= MAX_CHAT_HISTORY ->
  length (push_capped h m) <= MAX_CHAT_HISTORY.
Proof. rewrite push_capped_length. case_decide; lia. Qed.

Lemma push_capped_last (h : list ChatMessage.t) (m : ChatMessage.t) :
  last (push_capped h m) = Some m.
Proof.
  destruct (push_capped_drop h m) as (d & -> & Hd & Hiff).
  assert (Hle : d <= length h).
  { destruct (decide (d = 1)) as [Hd1|Hd1]; [|lia].
    apply Hiff in Hd1. unfold MAX_CHAT_HISTORY in Hd1. lia. }
  rewrite drop_app_le by exact Hle.
  by rewrite last_snoc.
Qed.

(** Pushing a run of messages leaves a suffix of the old sequence followed
    by the run, of length at least the cap once that many are there. *)
Lemma foldl_push_capped (msgs : list ChatMessage.t) :
  forall h : list ChatMessage.t,
    exists d, foldl push_capped h msgs = drop d (h ++ msgs)
              /\ d <= length h + length msgs
              /\ (MAX_CHAT_HISTORY <= length h + length msgs ->
                  MAX_CHAT_HISTORY <= length h + length msgs - d).
Proof.
  induction msgs as [|m msgs IH]; intros h; simpl.
  - exists 0. rewrite app_nil_r. split; [done|]. lia.
  - destruct (IH (push_capped h m)) as (d & -> & Hd & Hmin).
    destruct (push_capped_drop h m) as (e & He & He1 & Hiff).
    pose proof (push_capped_length h m) as Hlen.
    rewrite He. rewrite He in Hd, Hmin.
    rewrite length_drop, length_app in *. simpl in *.
    exists (e + d).
    rewrite <- drop_drop.
    rewrite <- (drop_app_le (h ++ [m]) msgs e) by (rewrite length_app; simpl; lia).
    rewrite <- app_assoc. simpl.
    split; [done|]. split; [lia|].
    unfold MAX_CHAT_HISTORY in *. lia.
Qed.

(** After at least [MAX_CHAT_HISTORY] pushes, the last [MAX_CHAT_HISTORY]
    entries are the last [MAX_CHAT_HISTORY] messages pushed, in order. *)
Lemma slice_last_foldl_push_capped (h msgs : list ChatMessage.t) :
  MAX_CHAT_HISTORY <= length msgs ->
  slice_last MAX_CHAT_HISTORY (foldl push_capped h msgs)
  = drop (length msgs - MAX_CHAT_HISTORY) msgs.
Proof.
  intros Hlen.
  destruct (foldl_push_capped msgs h) as (d & -> & Hd & Hmin).
  unfold slice_last. unfold MAX_CHAT_HISTORY at 1.
  rewrite length_drop, length_app, drop_drop.
  specialize (Hmin ltac:(lia)).
  replace (d + (length h + length msgs - d - MAX_CHAT_HISTORY))
    with (length h + (length msgs - MAX_CHAT_HISTORY)) by lia.
  by rewrite drop_app_add.
Qed.

(** ** Sending a chat message *)

Lemma trim_nil_iff_invalid (raw : jsstring) :
  negb (truthy (VStr raw)) || (length (trim raw) =? 0) = true
  <-> trim raw = [].
Proof.
  destruct raw as [|c raw]; [done|]. simpl negb. rewrite orb_false_l.
  rewrite Nat.eqb_eq. apply length_zero_iff_nil.
Qed.

(** A send whose trimmed body is empty is answered 400 and touches the
    store in no way. *)
Lemma send_invalid (c : ChatCall) (w : World) :
  trim (call_body c) = [] ->
  send c w = (Returned (ErrorResponse 400 "Invalid message"),
              log_event GetUser (log_event ReadBody w)).
Proof.
  intros Hempty. apply trim_nil_iff_invalid in Hempty.
  unfold send, post_chat.
  cbv beta iota zeta
    delta [ChatBody.message try_catch bind request_json getUser].
  rewrite Hempty. reflexivity.
Qed.

(** A send whose trimmed body is not empty is answered with the created
    message, whatever the store does.  The history [h] it pushes onto is
    the persisted one, or the empty one when the fetch rejected; the result
    is persisted unless the write rejected. *)
Lemma send_valid (c : ChatCall) (w : World) :
  trim (call_body c) <> [] ->
  exists h w',
    send c w = (Returned (ChatSent (call_message c)
                            (length (push_capped h (call_message c)))), w')
    /\ (h = chat_of w \/ h = [])
    /\ (kv_chat w' = kv_chat w
        \/ kv_chat w' = Some (push_capped h (call_message c)))
    /\ kv_players w' = kv_players w
    /\ (faults w = [] ->
        h = chat_of w
        /\ kv_chat w' = Some (push_capped h (call_message c))
        /\ faults w' = []).
Proof.
  intros Hvalid.
  assert (Hcheck : negb (truthy (VStr (call_body c)))
                   || (length (trim (call_body c)) =? 0) = false).
  { apply not_true_is_false. by rewrite trim_nil_iff_invalid. }
  unfold send, post_chat.
  cbv beta iota zeta
    delta [ChatBody.message try_catch bind request_json getUser].
  rewrite Hcheck. fold (call_message c).
  generalize (call_message c). intros m.
  destruct w as [ps ch st fs tr].
  destruct fs as [|[] [|[] fs]];
    eexists; eexists; (split; [reflexivity|]);
    unfold chat_of; cbn [kv_chat kv_players faults default];
    intuition (auto; discriminate).
Qed.

(** Whatever the caller, the body and the store do, a chat send leaves the
    persisted sequence within the cap if it was within the cap. *)
Lemma post_chat_keeps_cap (w : World) (user : User)
    (request : option ChatBody.t) (now date : Z) (random : Q) :
  length (chat_of w) <= MAX_CHAT_HISTORY ->
  length (chat_of (post_chat user request now random date w).2)
  <= MAX_CHAT_HISTORY.
Proof.
  intros Hcap.
  destruct user as [[userInfo|]|], request as [[message]|];
    try exact Hcap.
  destruct message as [| | | |raw|]; try exact Hcap.
  change (post_chat (Some (Some userInfo)) (Some (ChatBody.mk (VStr raw)))
            now random date)
    with (send (Build_ChatCall userInfo raw now random date)).
  set (c := Build_ChatCall userInfo raw now random date).
  destruct (decide (trim (call_body c) = [])) as [Hempty|Hvalid].
  - rewrite (send_invalid c w Hempty). exact Hcap.
  - destruct (send_valid c w Hvalid) as (h & w' & -> & Hh & Hst & _).
    simpl. unfold chat_of at 1.
    destruct Hst as [-> | ->]; [done|]. simpl.
    apply push_capped_bounded.
    destruct Hh as [-> | ->]; [done | simpl; unfold MAX_CHAT_HISTORY; lia].
Qed.

(** On a working store, a run of valid sends persists the fold of
    [push_capped] over the messages created. *)
Lemma send_all_ok (calls : list ChatCall) :
  forall w : World,
    faults w = [] ->
    Forall (fun c => trim (call_body c) <> []) calls ->
    chat_of (send_all calls w)
    = foldl push_capped (chat_of w) (call_message <$> calls)
    /\ faults (send_all calls w) = [].
Proof.
  induction calls as [|c calls IH]; intros w Hf Hall; simpl; [done|].
  apply Forall_cons in Hall as [Hc Hall].
  destruct (send_valid c w Hc) as (h & w' & Hrun & _ & _ & _ & Hok).
  destruct (Hok Hf) as (-> & Hch & Hf').
  rewrite Hrun. simpl.
  destruct (IH w' Hf' Hall) as [-> Hfs]. split; [|done].
  unfold chat_of at 1. by rewrite Hch.
Qed.

(** C1. A chat send never leaves the persisted sequence above
    [MAX_CHAT_HISTORY] entries when it started within that cap, whoever
    calls and whatever the store does; and on a working store, after
    [MAX_CHAT_HISTORY + k] valid sends onto any starting sequence, the tail
    read with limit [MAX_CHAT_HISTORY] returns exactly the last
    [MAX_CHAT_HISTORY] messages sent, in the order they were sent. *)
Theorem chat_capped_and_tail_is_last_sent :
  (forall (w : World) (user : User) (request : option ChatBody.t)
          (now date : Z) (random : Q),
      length (chat_of w) <= MAX_CHAT_HISTORY ->
      length (chat_of (post_chat user request now random date w).2)
      <= MAX_CHAT_HISTORY)
  /\ (forall (w : World) (calls : list ChatCall) (k : nat),
      faults w = [] ->
      Forall (fun c => trim (call_body c) <> []) calls ->
      length calls = MAX_CHAT_HISTORY + k ->
      0 < k ->
      (chat_tail MAX_CHAT_HISTORY (send_all calls w)).1
      = Returned (drop k (call_message <$> calls))
      /\ length (drop k (call_message <$> calls)) = MAX_CHAT_HISTORY).
Proof.
  split; [apply post_chat_keeps_cap|].
  intros w calls k Hf Hall Hlen _.
  destruct (send_all_ok calls w Hf Hall) as [Hchat Hfs].
  assert (Hok : rejects_next (send_all calls w) = false)
    by (unfold rejects_next; by rewrite Hfs).
  destruct (getChatHistory_ok _ Hok) as (w' & Hget & _).
  unfold chat_tail, bind. rewrite Hget. unfold ret. cbn [fst].
  rewrite Hchat, slice_last_foldl_push_capped
    by (rewrite length_fmap; lia).
  rewrite length_drop, !length_fmap, Hlen.
  split; [f_equal; f_equal; lia | lia].
Qed.

Lemma chat_capped_and_tail_is_last_sent_witness :
  length (chat_of (send (sample_call 0) (sample_world [false; true])).2) <= 100
  /\ (chat_tail MAX_CHAT_HISTORY
        (send_all (sample_calls 103) (sample_world []))).1
     = Returned (drop 3 (call_message <$> sample_calls 103)).
Proof.
  destruct chat_capped_and_tail_is_last_sent as [Hcap Htail].
  split.
  - apply (Hcap (sample_world [false; true])).
    unfold MAX_CHAT_HISTORY. simpl. lia.
  - apply (Htail (sample_world []) (sample_calls 103) 3).
    + reflexivity.
    + refine (bool_decide_unpack _ _). vm_compute. exact I.
    + reflexivity.
    + lia.
Defined.

(** C5. For every authenticated chat send whose body is a string: the
    answer has status 400 if and only if the body trimmed of surrounding
    white space is empty; otherwise the send succeeds, whatever the store
    does, and the body of the created message is the trimmed body cut to
    its first 200 code units (never rejected for its length); on a working
    store that message is the last entry of the persisted sequence. *)
Theorem append_trims_validates_truncates (c : ChatCall) (w : World) :
  exists (r : response) (w' : World),
    send c w = (Returned r, w')
    /\ (status r = 400 <-> trim (call_body c) = [])
    /\ (trim (call_body c) <> [] ->
        (exists total, r = ChatSent (call_message c) total)
        /\ ChatMessage.message (call_message c)
           = take 200 (trim (call_body c))
        /\ length (ChatMessage.message (call_message c)) <= 200
        /\ (faults w = [] -> last (chat_of w') = Some (call_message c))).
Proof.
  destruct (decide (trim (call_body c) = [])) as [Hempty|Hvalid].
  - rewrite (send_invalid c w Hempty). do 2 eexists.
    split; [reflexivity|]. split; [done|]. done.
  - destruct (send_valid c w Hvalid) as (h & w' & -> & _ & _ & _ & Hok).
    do 2 eexists. split; [reflexivity|]. split.
    + simpl. split; [discriminate | done].
    + intros _. split; [eauto|]. split; [reflexivity|]. split.
      * unfold call_message, substring0. cbn [ChatMessage.message].
        rewrite length_take. lia.
      * intros Hf. destruct (Hok Hf) as (_ & Hch & _).
        unfold chat_of. rewrite Hch. simpl. apply push_capped_last.
Qed.

Lemma append_trims_validates_truncates_witness :
  exists (r : response) (w' : World),
    send long_call (sample_world []) = (Returned r, w')
    /\ status r <> 400
    /\ ChatMessage.message (call_message long_call) = replicate 200 120%N
    /\ last (chat_of w') = Some (call_message long_call).
Proof.
  destruct (append_trims_validates_truncates long_call (sample_world []))
    as (r & w' & Hrun & Hiff & Hvalid).
  assert (Hne : trim (call_body long_call) <> [])
    by (vm_compute; discriminate).
  exists r, w'. split; [exact Hrun|]. split.
  - intros H400. apply Hiff in H400. contradiction.
  - destruct (Hvalid Hne) as (_ & Hbody & _ & Hlast).
    split; [rewrite Hbody; vm_compute; reflexivity | apply Hlast; reflexivity].
Defined.

(** The two inputs the specification names: a body of three spaces is
    answered 400; a body of 500 letters is accepted and cut to 200. *)
Example append_blank :
  (send blank_call (sample_world [])).1
  = Returned (ErrorResponse 400 "Invalid message").
Proof. reflexivity. Qed.

Example append_long :
  exists id total,
    (send long_call (sample_world [])).1
    = Returned (ChatSent (ChatMessage.mk id "Ada" (replicate 200 120%N)
                            5000 "u-ada") total).
Proof. do 2 eexists. vm_compute. reflexivity. Qed.

(** ** Upserting a position *)

Lemma Math_round_nearest (q : Q) : nearest_integer q (Qfloor (q + (1 # 2))).
Proof.
  unfold nearest_integer.
  pose proof (Qfloor_le (q + (1 # 2))) as Hle.
  pose proof (Qlt_floor (q + (1 # 2))) as Hlt.
  rewrite inject_Z_plus in Hlt.
  change (inject_Z 1) with 1%Q in Hlt.
  split; lra.
Qed.

(** An authenticated upsert with numeric coordinates and a truthy avatar
    is answered with the rounded coordinates, whatever the store does; the
    collection [base] it updates is the persisted one, or the empty one
    when the fetch rejected; the update is persisted unless the write
    rejected. *)
Lemma post_position_valid (w : World) (userInfo : UserInfo) (x y : jsnum)
    (emoji : jsval) (now : Z) :
  truthy emoji = true ->
  let player :=
    Player.mk (uuid userInfo) (user_username userInfo) emoji
      (Math_round x) (Math_round y) now in
  exists base w',
    post_position (Some (Some userInfo))
      (Some (PositionBody.mk (VNum x) (VNum y) emoji)) now w
    = (Returned (PositionUpdated (uuid userInfo) (Math_round x) (Math_round y)
                   (size (<[uuid userInfo := player]> base))), w')
    /\ (base = players_of w \/ base = ∅)
    /\ kv_chat w' = kv_chat w /\ kv_stats w' = kv_stats w
    /\ (forall g rest, faults w = g :: true :: rest ->
          kv_players w' = kv_players w)
    /\ (faults w = [] ->
          kv_players w' = Some (<[uuid userInfo := player]> (players_of w))).
Proof.
  intros Hemoji player.
  unfold post_position.
  cbv beta iota zeta delta [PositionBody.x PositionBody.y PositionBody.emoji
                             try_catch bind request_json getUser].
  rewrite Hemoji. cbn [negb]. fold player.
  generalize (Math_round x), (Math_round y), player. intros rx ry p.
  destruct w as [ps ch st fs tr].
  destruct fs as [|[] [|[] fs]];
    eexists; eexists; (split; [reflexivity|]);
    unfold players_of; cbn [kv_chat kv_players kv_stats faults default];
    repeat split; auto; intros; discriminate || congruence.
Qed.

(** C3 as stated fails: the worker rounds but does not clamp.  An
    authenticated upsert of [(1000, -7)] stores and returns [(1000, -7)],
    outside of [0, GRID_SIZE]; and the number read from [1e999] passes the
    [typeof] check and is stored as it is, which is no integer. *)
Lemma upsert_clamps_counterexample :
  (post_position (Some (Some ada)) (Some off_grid_request) 5000
     (sample_world [])).1
  = Returned (PositionUpdated "u-ada" (NFin 1000) (NFin (-7)) 3)
  /\ Player.x <$> players_of
       (post_position (Some (Some ada)) (Some off_grid_request) 5000
          (sample_world [])).2 !! "u-ada" = Some (NFin 1000)
  /\ within_grid (NFin 1000) = false
  /\ within_grid (NFin (-7)) = false
  /\ (post_position (Some (Some ada)) (Some overflowing_request) 5000
        (sample_world [])).1
     = Returned (PositionUpdated "u-ada" (NInf false) (NFin 20) 3)
  /\ within_grid (NInf false) = false.
Proof. vm_compute. repeat split; reflexivity. Qed.

(** C3, amended.  For every authenticated upsert with finite numeric [x]
    and [y] and a truthy avatar, the position in the answer consists of the
    integers nearest to [x] and to [y] (the upper one on a tie), with no
    clamping to the grid; on a working store the same integers are stored
    for the identity in the players collection. *)
Theorem upsert_rounds_without_clamping (w : World) (userInfo : UserInfo)
    (x y : Q) (emoji : jsval) (now : Z) :
  truthy emoji = true ->
  exists (zx zy : Z) (total : nat) (w' : World),
    post_position (Some (Some userInfo))
      (Some (PositionBody.mk (VNum (NFin x)) (VNum (NFin y)) emoji)) now w
    = (Returned (PositionUpdated (uuid userInfo) (NFin (inject_Z zx))
                   (NFin (inject_Z zy)) total), w')
    /\ nearest_integer x zx /\ nearest_integer y zy
    /\ (faults w = [] ->
        players_of w' !! uuid userInfo
        = Some (Player.mk (uuid userInfo) (user_username userInfo) emoji
                  (NFin (inject_Z zx)) (NFin (inject_Z zy)) now)).
Proof.
  intros Hemoji.
  destruct (post_position_valid w userInfo (NFin x) (NFin y) emoji now Hemoji)
    as (base & w' & Hrun & _ & _ & _ & _ & Hok).
  exists (Qfloor (x + (1 # 2))), (Qfloor (y + (1 # 2))).
  do 2 eexists. split; [exact Hrun|].
  split; [apply Math_round_nearest|]. split; [apply Math_round_nearest|].
  intros Hf. unfold players_of at 1. rewrite (Hok Hf). simpl.
  apply lookup_insert_eq.
Qed.

Lemma upsert_rounds_without_clamping_witness :
  exists (zx zy : Z) (total : nat) (w' : World),
    post_position (Some (Some ada))
      (Some (PositionBody.mk (VNum (NFin (2001 # 2))) (VNum (NFin (-15 # 2)))
               smiley)) 5000 (sample_world [])
    = (Returned (PositionUpdated "u-ada" (NFin (inject_Z zx))
                   (NFin (inject_Z zy)) total), w')
    /\ nearest_integer (2001 # 2) zx /\ nearest_integer (-15 # 2) zy.
Proof.
  destruct (upsert_rounds_without_clamping (sample_world []) ada
              (2001 # 2) (-15 # 2) smiley 5000 eq_refl)
    as (zx & zy & total & w' & Hrun & Hx & Hy & _).
  exists zx, zy, total, w'. auto.
Defined.

Example upsert_rounds_half_up :
  (post_position (Some (Some ada))
     (Some (PositionBody.mk (VNum (NFin (2001 # 2))) (VNum (NFin (-15 # 2)))
              smiley)) 5000 (sample_world [])).1
  = Returned (PositionUpdated "u-ada" (NFin 1001) (NFin (-7)) 3).
Proof. vm_compute. reflexivity. Qed.

(** ** A failing write *)

(** C4 as stated fails: when [kv.set] rejects, [savePlayers] and
    [saveChatHistory] catch and log the error, and the handler goes on to
    report success.  With a store whose fetch works and whose write
    rejects, the upsert and the chat send both answer with status 200 while
    the store keeps its old content. *)
Lemma write_failure_surfaces_counterexample :
  let up := post_position (Some (Some ada)) (Some centre_request) 5000
              (sample_world [false; true]) in
  let ch := send first_call (sample_world [false; true]) in
  up.1 = Returned (PositionUpdated "u-ada" (NFin 30) (NFin 40) 3)
  /\ status (PositionUpdated "u-ada" (NFin 30) (NFin 40) 3) = 200
  /\ trace up.2 = [ReadBody; GetUser; KvGet KV_PLAYERS_KEY;
                   KvSet KV_PLAYERS_KEY]
  /\ kv_players up.2 = Some sample_players
  /\ ch.1 = Returned (ChatSent (call_message first_call) 3)
  /\ status (ChatSent (call_message first_call) 3) = 200
  /\ trace ch.2 = [ReadBody; GetUser; KvGet KV_CHAT_KEY; KvSet KV_CHAT_KEY]
  /\ kv_chat ch.2 = Some sample_chat.
Proof. vm_compute. repeat split; reflexivity. Qed.

(** C4, amended.  When the store write of an authenticated, valid upsert
    or chat send rejects (the fetch before it may work or reject), the
    helper swallows the failure: the handler answers with its success
    shape (status 200), and the store holds what it held before. *)
Theorem write_failure_is_swallowed (w : World) (g : bool) (rest : list bool)
    (userInfo : UserInfo) (x y : jsnum) (emoji : jsval) (now : Z)
    (c : ChatCall) :
  faults w = g :: true :: rest ->
  truthy emoji = true ->
  trim (call_body c) <> [] ->
  (exists r w',
      post_position (Some (Some userInfo))
        (Some (PositionBody.mk (VNum x) (VNum y) emoji)) now w
      = (Returned r, w')
      /\ status r = 200 /\ same_store w w')
  /\ (exists r w',
      send c w = (Returned r, w') /\ status r = 200 /\ same_store w w').
Proof.
  intros Hf Hemoji Hvalid. split.
  - destruct (post_position_valid w userInfo x y emoji now Hemoji)
      as (base & w' & Hrun & _ & Hch & Hst & Hfail & _).
    do 2 eexists. split; [exact Hrun|]. split; [reflexivity|].
    unfold same_store. rewrite (Hfail g rest Hf). auto.
  - unfold send, post_chat.
    cbv beta iota zeta
      delta [ChatBody.message try_catch bind request_json getUser].
    rewrite (not_true_is_false _ (fun H => Hvalid (proj1 (trim_nil_iff_invalid _) H))).
    generalize (ChatMessage.mk (chat_id (call_now c) (call_random c))
                  (user_username (call_user c))
                  (substring0 200 (trim (call_body c))) (call_date c)
                  (uuid (call_user c))).
    intros m. destruct w as [ps ch st fs tr]. simpl in Hf. subst fs.
    destruct g; do 2 eexists; (split; [reflexivity|]);
      (split; [reflexivity|]); repeat split.
Qed.

Lemma write_failure_is_swallowed_witness :
  (exists r w',
      post_position (Some (Some ada)) (Some centre_request) 5000
        (sample_world [false; true])
      = (Returned r, w')
      /\ status r = 200 /\ same_store (sample_world [false; true]) w')
  /\ (exists r w',
      send first_call (sample_world [false; true]) = (Returned r, w')
      /\ status r = 200 /\ same_store (sample_world [false; true]) w').
Proof.
  apply (write_failure_is_swallowed (sample_world [false; true]) false []
           ada (NFin 30) (NFin 40) smiley 5000 first_call).
  - reflexivity.
  - reflexivity.
  - vm_compute. discriminate.
Defined.

(** ** Message ids *)

(** C9 fails on the code.  The id is the double [Date.now() +
    Math.random()]; at the magnitude of a millisecond timestamp a double
    keeps only 12 bits after the binary point, so two sends in the same
    millisecond whose distinct random draws fall within the same [2^-12]
    step get the same id.  Both messages are persisted, with one id. *)
Theorem chat_id_collision :
  call_now first_call = call_now second_call
  /\ ~ (call_random first_call == call_random second_call)%Q
  /\ call_message first_call <> call_message second_call
  /\ ChatMessage.id (call_message first_call)
     = ChatMessage.id (call_message second_call)
  /\ Qeq_bool (chat_id same_ms (1 # 2))
       (chat_id same_ms ((1 # 2) + (1 # 1048576))) = true
  /\ chat_of (send_all [first_call; second_call] (sample_world []))
     = sample_chat ++ [call_message first_call; call_message second_call].
Proof.
  split; [reflexivity|]. split; [intros H; vm_compute in H; discriminate|].
  split; [intros H; vm_compute in H; discriminate|].
  vm_compute. repeat split; reflexivity.
Qed.

(** * Further properties of the worker *)

(** ** The helpers never throw *)

Lemma getPlayers_total (w : World) :
  exists m w',
    getPlayers w = (Returned m, w')
    /\ same_store w w' /\ faults w' = tail (faults w)
    /\ trace w' = trace w ++ [KvGet KV_PLAYERS_KEY]
    /\ (if rejects_next w then m = ∅ else m = players_of w).
Proof.
  destruct (rejects_next w) eqn:Hnext.
  - destruct (getPlayers_failed w Hnext) as (w' & ? & ? & ? & ?). eauto 10.
  - destruct (getPlayers_ok w Hnext) as (w' & ? & ? & ? & ?). eauto 10.
Qed.

Lemma getChatHistory_total (w : World) :
  exists h w',
    getChatHistory w = (Returned h, w')
    /\ same_store w w' /\ faults w' = tail (faults w)
    /\ trace w' = trace w ++ [KvGet KV_CHAT_KEY]
    /\ (if rejects_next w then h = [] else h = chat_of w).
Proof.
  destruct (rejects_next w) eqn:Hnext.
  - destruct (getChatHistory_failed w Hnext) as (w' & ? & ? & ? & ?).
    eauto 10.
  - destruct (getChatHistory_ok w Hnext) as (w' & ? & ? & ? & ?). eauto 10.
Qed.

Lemma savePlayers_total (players : gmap string Player.t) (w : World) :
  exists w',
    savePlayers players w = (Returned tt, w')
    /\ kv_chat w' = kv_chat w /\ kv_stats w' = kv_stats w
    /\ faults w' = tail (faults w)
    /\ trace w' = trace w ++ [KvSet KV_PLAYERS_KEY]
    /\ kv_players w'
       = if rejects_next w then kv_players w else Some players.
Proof.
  destruct w as [ps ch st fs tr].
  destruct fs as [|[] fs]; eexists; (split; [reflexivity|]); simpl; auto.
Qed.

Lemma updateGameStats_total (now : Z) (w : World) :
  exists stats w' es,
    updateGameStats now w = (Returned stats, w')
    /\ kv_players w' = kv_players w /\ kv_chat w' = kv_chat w
    /\ trace w' = trace w ++ es
    /\ (faults w = [] ->
        stats = GameStats.mk (size (players_of w)) (length (chat_of w)) now
        /\ kv_stats w' = Some stats /\ faults w' = []).
Proof.
  destruct w as [ps ch st fs tr].
  destruct fs as [|[] [|[] [|[] fs]]];
    do 3 eexists; (split; [reflexivity|]); simpl;
    (split; [reflexivity|]); (split; [reflexivity|]);
    (split; [rewrite <- ?app_assoc; reflexivity|]);
    intros; try discriminate; auto.
Qed.

(** ** The read endpoints *)

(** X1.  The five GET endpoints never write and never take their error branch,
    whatever the store does: each answers with status 200, leaves the three
    keys as they were and calls the store with [kv.get] only.  /health and
    /api always answer with their success object. *)
Theorem reads_never_write_never_fail (w : World) (now : Z) :
  (exists r w' es,
      get_players now w = (Returned r, w') /\ status r = 200
      /\ same_store w w' /\ trace w' = trace w ++ es /\ only_gets es)
  /\ (exists r w' es,
      get_chat now w = (Returned r, w') /\ status r = 200
      /\ same_store w w' /\ trace w' = trace w ++ es /\ only_gets es)
  /\ (exists r w' es,
      get_stats now w = (Returned r, w') /\ report_status r = 200
      /\ same_store w w' /\ trace w' = trace w ++ es /\ only_gets es)
  /\ (exists p m w' es,
      get_health now w = (Returned (HealthOk p m now), w')
      /\ same_store w w' /\ trace w' = trace w ++ es /\ only_gets es)
  /\ (exists p m w' es,
      get_api now w = (Returned (ApiDoc p m now), w')
      /\ same_store w w' /\ trace w' = trace w ++ es /\ only_gets es).
Proof.
  destruct w as [ps ch st fs tr].
  repeat split.
  - destruct fs as [|[] fs]; do 3 eexists;
      (split; [reflexivity|]); (split; [reflexivity|]);
      (split; [repeat split|]); (split; [reflexivity|]);
      repeat constructor; eauto.
  - destruct fs as [|[] fs]; do 3 eexists;
      (split; [reflexivity|]); (split; [reflexivity|]);
      (split; [repeat split|]); (split; [reflexivity|]);
      repeat constructor; eauto.
  - destruct fs as [|[] [|[] fs]]; do 3 eexists;
      (split; [reflexivity|]); (split; [reflexivity|]);
      (split; [repeat split|]);
      (split; [simpl; rewrite <- ?app_assoc; reflexivity|]);
      repeat constructor; eauto.
  - destruct fs as [|[] [|[] fs]]; do 4 eexists;
      (split; [reflexivity|]); (split; [repeat split|]);
      (split; [simpl; rewrite <- ?app_assoc; reflexivity|]);
      repeat constructor; eauto.
  - destruct fs as [|[] [|[] fs]]; do 4 eexists;
      (split; [reflexivity|]); (split; [repeat split|]);
      (split; [simpl; rewrite <- ?app_assoc; reflexivity|]);
      repeat constructor; eauto.
Qed.

(** X2.  While the store does not answer, /health, /api and /api/stats still
    answer as if it were empty: status ok with zero players and zero
    messages, whatever the store holds. *)
Theorem outage_reads_as_empty (w : World) (rest : list bool) (now : Z) :
  faults w = true :: true :: rest ->
  (get_health now w).1 = Returned (HealthOk 0 0 now)
  /\ (get_api now w).1 = Returned (ApiDoc 0 0 now)
  /\ (get_stats now w).1 = Returned (StatsReport 0 0 [] now)
  /\ (get_chat now w).1 = Returned (ChatMessages [] 0 now).
Proof.
  intros Hf. destruct w as [ps ch st fs tr]. simpl in Hf. subst fs.
  repeat split.
Qed.

Lemma outage_reads_as_empty_witness :
  (get_health 9 (sample_world [true; true])).1 = Returned (HealthOk 0 0 9).
Proof.
  apply (outage_reads_as_empty (sample_world [true; true]) [] 9 eq_refl).
Defined.

Lemma slice_last_suffix {A} (n : nat) (a : list A) :
  exists older, a = older ++ slice_last n a
                /\ (0 < n -> length (slice_last n a) = Nat.min n (length a)).
Proof.
  destruct n as [|n].
  - exists []. split; [done|]. lia.
  - exists (take (length a - S n) a). unfold slice_last.
    rewrite take_drop. split; [done|]. intros _. rewrite length_drop. lia.
Qed.

(** X3.  On a store whose fetch works, GET /api/chat returns the most recent
    messages only: what it lists is the end of the persisted sequence, in
    the persisted order, [MAX_CHAT_DISPLAY] messages or all of them when
    there are fewer, while [totalMessages] counts the whole sequence. *)
Theorem get_chat_window (w : World) (now : Z) :
  rejects_next w = false ->
  exists messages older w',
    get_chat now w
    = (Returned (ChatMessages messages (length (chat_of w)) now), w')
    /\ chat_of w = older ++ messages
    /\ length messages = Nat.min MAX_CHAT_DISPLAY (length (chat_of w)).
Proof.
  intros Hok.
  destruct (getChatHistory_ok w Hok) as (w' & Hget & _).
  destruct (slice_last_suffix MAX_CHAT_DISPLAY (chat_of w))
    as (older & Hsplit & Hlen).
  exists (slice_last MAX_CHAT_DISPLAY (chat_of w)), older, w'.
  unfold get_chat, try_catch, bind. rewrite Hget.
  split; [reflexivity|]. split; [exact Hsplit|].
  apply Hlen. unfold MAX_CHAT_DISPLAY. lia.
Qed.

Lemma get_chat_window_witness :
  exists messages older w',
    get_chat 9 (sample_world []) 
    = (Returned (ChatMessages messages 2 9), w')
    /\ sample_chat = older ++ messages
    /\ length messages = 2.
Proof.
  destruct (get_chat_window (sample_world []) 9 eq_refl)
    as (messages & older & w' & Hrun & Hsplit & Hlen).
  exists messages, older, w'. auto.
Defined.

(** X4.  On a working store the diagnostic endpoints agree with the list
    endpoints: the count of GET /api/players is [activePlayers] of
    /api/stats and [players] of /health, and [totalMessages] of
    GET /api/chat is that of /api/stats and [messages] of /health; the
    recent messages of /api/stats are the authors and times of the last
    five messages (or of all, when there are fewer), oldest first. *)
Theorem diagnostics_agree_with_lists (w : World) (now : Z) :
  faults w = [] ->
  exists playerList messages,
    (get_players now w).1
    = Returned (PlayersList playerList (size (players_of w)) now)
    /\ (get_chat now w).1
       = Returned (ChatMessages messages (length (chat_of w)) now)
    /\ (get_stats now w).1
       = Returned (StatsReport (size (players_of w)) (length (chat_of w))
                     (recent_entry <$> slice_last 5 (chat_of w)) now)
    /\ (get_health now w).1
       = Returned (HealthOk (size (players_of w)) (length (chat_of w)) now)
    /\ length (slice_last 5 (chat_of w)) = Nat.min 5 (length (chat_of w)).
Proof.
  intros Hf. destruct w as [ps ch st fs tr]. simpl in Hf. subst fs.
  do 2 eexists. split.
  { unfold get_players, try_catch, bind, getPlayers, try_catch, bind.
    cbn. rewrite length_fmap, length_map_to_list. reflexivity. }
  split; [reflexivity|]. split; [reflexivity|]. split; [reflexivity|].
  destruct (slice_last_suffix 5 (chat_of (mkWorld ps ch st [] tr)))
    as (older & _ & Hlen).
  apply Hlen. lia.
Qed.

Lemma diagnostics_agree_with_lists_witness :
  (get_stats 9 (sample_world [])).1
  = Returned (StatsReport 3 2 [("Ada", 1%Z); ("Bob", 2%Z)] 9).
Proof.
  destruct (diagnostics_agree_with_lists (sample_world []) 9 eq_refl)
    as (pl & ms & _ & _ & Hstats & _).
  rewrite Hstats. vm_compute. reflexivity.
Defined.

(** ** Upserting a position, continued *)

Lemma post_position_ok (w : World) (userInfo : UserInfo) (x y : jsnum)
    (emoji : jsval) (now : Z) :
  faults w = [] ->
  truthy emoji = true ->
  let players := <[uuid userInfo := upserted userInfo x y emoji now]>
                   (players_of w) in
  exists w',
    post_position (Some (Some userInfo))
      (Some (PositionBody.mk (VNum x) (VNum y) emoji)) now w
    = (Returned (PositionUpdated (uuid userInfo) (Math_round x) (Math_round y)
                   (size players)), w')
    /\ kv_players w' = Some players
    /\ kv_chat w' = kv_chat w /\ kv_stats w' = kv_stats w
    /\ faults w' = [].
Proof.
  intros Hf Hemoji players.
  unfold post_position.
  cbv beta iota zeta delta [PositionBody.x PositionBody.y PositionBody.emoji
                             try_catch bind request_json getUser].
  rewrite Hemoji. cbn [negb].
  destruct w as [ps ch st fs tr]. simpl in Hf. subst fs.
  eexists. split; [reflexivity|]. repeat split.
Qed.

(** X5.  Upsert, then list.  On a working store, after an authenticated upsert
    with numeric coordinates and a truthy avatar, GET /api/players lists
    the record of that identity with the rounded coordinates, the avatar
    and the time of the upsert, and its count is the [totalPlayers] the
    upsert answered. *)
Theorem upsert_then_list (w : World) (userInfo : UserInfo) (x y : jsnum)
    (emoji : jsval) (now later : Z) :
  faults w = [] ->
  truthy emoji = true ->
  exists total w1 playerList w2,
    post_position (Some (Some userInfo))
      (Some (PositionBody.mk (VNum x) (VNum y) emoji)) now w
    = (Returned (PositionUpdated (uuid userInfo) (Math_round x) (Math_round y)
                   total), w1)
    /\ get_players later w1
       = (Returned (PlayersList playerList total later), w2)
    /\ upserted userInfo x y emoji now ∈ playerList
    /\ length playerList = total.
Proof.
  intros Hf Hemoji.
  destruct (post_position_ok w userInfo x y emoji now Hf Hemoji)
    as (w1 & Hrun & Hps & _ & _ & Hf1).
  assert (Hok : rejects_next w1 = false)
    by (unfold rejects_next; by rewrite Hf1).
  destruct (getPlayers_ok w1 Hok) as (w2 & Hget & _).
  do 4 eexists. split; [exact Hrun|].
  unfold get_players, try_catch, bind. rewrite Hget.
  unfold players_of. rewrite Hps. cbn [default ret].
  rewrite length_fmap, length_map_to_list.
  split; [reflexivity|]. split; [|by rewrite length_fmap, length_map_to_list].
  apply list_elem_of_fmap. eexists (uuid userInfo, _). split; [reflexivity|].
  apply elem_of_map_to_list. apply lookup_insert_eq.
Qed.

Lemma upsert_then_list_witness :
  exists total w1 playerList w2,
    post_position (Some (Some bob)) (Some centre_request) 5000
      (sample_world [])
    = (Returned (PositionUpdated "u-bob" (NFin 30) (NFin 40) total), w1)
    /\ get_players 5001 w1
       = (Returned (PlayersList playerList total 5001), w2)
    /\ Player.mk "u-bob" "Bob" smiley (NFin 30) (NFin 40) 5000 ∈ playerList.
Proof.
  destruct (upsert_then_list (sample_world []) bob (NFin 30) (NFin 40)
              smiley 5000 5001 eq_refl eq_refl)
    as (total & w1 & pl & w2 & Hrun & Hlist & Hin & _).
  exists total, w1, pl, w2. split; [exact Hrun|]. split; [exact Hlist|].
  exact Hin.
Defined.

(** X6.  An upsert replaces the record of its own identity and nothing else.
    On a working store, every other identity keeps its record, and
    [totalPlayers] is the previous size, plus one when the identity is
    new. *)
Theorem upsert_touches_one_identity (w : World) (userInfo : UserInfo)
    (x y : jsnum) (emoji : jsval) (now : Z) :
  faults w = [] ->
  truthy emoji = true ->
  exists total w',
    post_position (Some (Some userInfo))
      (Some (PositionBody.mk (VNum x) (VNum y) emoji)) now w
    = (Returned (PositionUpdated (uuid userInfo) (Math_round x) (Math_round y)
                   total), w')
    /\ players_of w' !! uuid userInfo
       = Some (upserted userInfo x y emoji now)
    /\ (forall other, other <> uuid userInfo ->
          players_of w' !! other = players_of w !! other)
    /\ total = (if decide (is_Some (players_of w !! uuid userInfo))
                then size (players_of w) else S (size (players_of w)))
    /\ kv_chat w' = kv_chat w.
Proof.
  intros Hf Hemoji.
  destruct (post_position_ok w userInfo x y emoji now Hf Hemoji)
    as (w' & Hrun & Hps & Hch & _ & _).
  do 2 eexists. split; [exact Hrun|].
  unfold players_of at 1 2. rewrite Hps. cbn [default].
  split; [apply lookup_insert_eq|].
  split; [intros other Hne; by apply lookup_insert_ne|].
  split; [|exact Hch].
  case_decide as Hin.
  - destruct Hin as [p Hp]. by apply map_size_insert_Some.
  - apply map_size_insert_None. by apply eq_None_not_Some.
Qed.

Lemma upsert_touches_one_identity_witness :
  exists w',
    post_position (Some (Some ada)) (Some centre_request) 5000
      (sample_world [])
    = (Returned (PositionUpdated "u-ada" (NFin 30) (NFin 40) 3), w')
    /\ players_of w' !! "u-bob" = sample_players !! "u-bob".
Proof.
  destruct (upsert_touches_one_identity (sample_world []) ada (NFin 30)
              (NFin 40) smiley 5000 eq_refl eq_refl)
    as (total & w' & Hrun & _ & Hother & Htotal & _).
  exists w'. split.
  - unfold centre_request. rewrite Hrun. subst total. vm_compute. reflexivity.
  - apply (Hother "u-bob"). discriminate.
Defined.

(** X7.  Validation of a position body.  With a readable body and a resolved
    identity, the answer has status 400 exactly when [x] or [y] is not of
    type number or the avatar is falsy, and then the store is not called:
    the handler has only read the body and looked the identity up.  NaN and
    the infinities are of type number and pass. *)
Theorem position_validation (w : World) (userInfo : UserInfo)
    (body : PositionBody.t) (now : Z) :
  exists r w',
    post_position (Some (Some userInfo)) (Some body) now w = (Returned r, w')
    /\ (status r = 400 <->
        typeof_number (PositionBody.x body) = false
        \/ typeof_number (PositionBody.y body) = false
        \/ truthy (PositionBody.emoji body) = false)
    /\ (status r = 400 -> w' = log_event GetUser (log_event ReadBody w))
    /\ (status r <> 400 -> status r = 200).
Proof.
  destruct body as [bx by_ emoji].
  destruct (truthy emoji) eqn:Hemoji;
    destruct bx as [| | |x| |], by_ as [| | |y| |];
    try (do 2 eexists; split;
         [unfold post_position;
          cbv beta iota zeta delta [PositionBody.x PositionBody.y
            PositionBody.emoji try_catch bind request_json getUser];
          rewrite ?Hemoji; reflexivity|];
         cbn; split; [split; auto|]; split; [reflexivity | congruence]).
  destruct (post_position_valid w userInfo x y emoji now Hemoji)
    as (base & w' & Hrun & _).
  do 2 eexists. split; [exact Hrun|].
  cbn. rewrite Hemoji. split; [|split; [discriminate | reflexivity]].
  split; [discriminate|]. intros [?|[?|?]]; discriminate.
Qed.

Lemma position_validation_witness :
  exists r,
    post_position (Some (Some ada))
      (Some (PositionBody.mk (VStr [49%N]) (VNum (NFin 2)) smiley)) 5000
      (sample_world [])
    = (Returned r, log_event GetUser (log_event ReadBody (sample_world [])))
    /\ status r = 400.
Proof.
  destruct (position_validation (sample_world []) ada
              (PositionBody.mk (VStr [49%N]) (VNum (NFin 2)) smiley) 5000)
    as (r & w' & Hrun & Hiff & Hworld & _).
  assert (H400 : status r = 400) by (apply Hiff; left; reflexivity).
  exists r. rewrite <- (Hworld H400). split; [exact Hrun | exact H400].
Defined.

Lemma position_validation_run (w : World) (userInfo : UserInfo)
    (body : PositionBody.t) (now : Z) :
  exists r w',
    post_position (Some (Some userInfo)) (Some body) now w = (Returned r, w')
    /\ (status r = 400 \/ status r = 200).
Proof.
  destruct body as [bx by_ emoji].
  destruct (truthy emoji) eqn:Hemoji;
    destruct bx as [| | |x| |], by_ as [| | |y| |];
    try (do 2 eexists; split;
         [unfold post_position;
          cbv beta iota zeta delta [PositionBody.x PositionBody.y
            PositionBody.emoji try_catch bind request_json getUser];
          rewrite ?Hemoji; reflexivity|]; left; reflexivity).
  destruct (post_position_valid w userInfo x y emoji now Hemoji)
    as (base & w' & Hrun & _).
  do 2 eexists. split; [exact Hrun | right; reflexivity].
Qed.

(** ** Which failures reach the caller *)

Ltac no_store_calls :=
  unfold no_store_call;
  repeat (apply List.Forall_cons;
          [first [left; reflexivity | right; reflexivity]|]);
  apply List.Forall_nil.

Lemma post_logout_total (w : World) (userInfo : UserInfo) (statsNow : Z) :
  exists removed n w',
    post_logout (Some (Some userInfo)) statsNow w
    = (Returned (LoggedOut removed (uuid userInfo) n), w')
    /\ kv_chat w' = kv_chat w.
Proof.
  unfold post_logout, try_catch, bind, getUser.
  destruct (getPlayers_total (log_event GetUser w))
    as (m & w1 & -> & (_ & Hc1 & _) & _).
  destruct (savePlayers_total (delete (uuid userInfo) m) w1)
    as (w2 & -> & Hc2 & _).
  destruct (updateGameStats_total statsNow w2)
    as (stats & w3 & es & -> & _ & Hc3 & _).
  do 3 eexists. split; [reflexivity|].
  rewrite Hc3, Hc2, <- Hc1. reflexivity.
Qed.

Lemma post_cleanup_total (w : World) (now statsNow : Z) :
  exists removed active w',
    post_cleanup now statsNow w
    = (Returned (CleanupDone removed active now), w')
    /\ kv_chat w' = kv_chat w.
Proof.
  unfold post_cleanup, try_catch, bind.
  destruct (getPlayers_total w) as (m & w1 & -> & (_ & Hc1 & _) & _).
  destruct (sweep now PLAYER_TIMEOUT m) as [players' n].
  destruct (savePlayers_total players' w1) as (w2 & -> & Hc2 & _).
  destruct (updateGameStats_total statsNow w2)
    as (stats & w3 & es & -> & _ & Hc3 & _).
  do 3 eexists. split; [reflexivity|].
  rewrite Hc3, Hc2, <- Hc1. reflexivity.
Qed.

(** X8.  An authenticated call is answered with status 500 exactly when reading
    the body or the identity lookup throws (for logout: when the lookup
    throws), and then the store has not been called.  No failure of the
    store makes any of the three handlers answer 500. *)
Theorem server_error_iff_collaborator_throws (w : World)
    (auth : option UserInfo) (position : option PositionBody.t)
    (chat : option ChatBody.t) (now date statsNow : Z) (random : Q) :
  (exists r w' es,
      post_position (Some auth) position now w = (Returned r, w')
      /\ (status r = 500 <-> position = None \/ auth = None)
      /\ (status r = 500 ->
          same_store w w' /\ faults w' = faults w
          /\ trace w' = trace w ++ es /\ no_store_call es))
  /\ (exists r w' es,
      post_chat (Some auth) chat now random date w = (Returned r, w')
      /\ (status r = 500 <-> chat = None \/ auth = None)
      /\ (status r = 500 ->
          same_store w w' /\ faults w' = faults w
          /\ trace w' = trace w ++ es /\ no_store_call es))
  /\ (exists r w' es,
      post_logout (Some auth) statsNow w = (Returned r, w')
      /\ (status r = 500 <-> auth = None)
      /\ (status r = 500 ->
          same_store w w' /\ faults w' = faults w
          /\ trace w' = trace w ++ es /\ no_store_call es)).
Proof.
  assert (Hthrown : forall r w' (es : list event) (P : Prop),
    status r = 500 -> P -> same_store w w' -> faults w' = faults w ->
    trace w' = trace w ++ es -> no_store_call es ->
    (status r = 500 <-> P)
    /\ (status r = 500 ->
        same_store w w' /\ faults w' = faults w
        /\ trace w' = trace w ++ es /\ no_store_call es)) by tauto.
  assert (Hfine : forall r w' (P : Prop),
    status r <> 500 -> ~ P ->
    (status r = 500 <-> P)
    /\ (status r = 500 ->
        same_store w w' /\ faults w' = faults w
        /\ trace w' = trace w ++ [] /\ no_store_call [])) by tauto.
  split; [|split].
  - destruct auth as [userInfo|], position as [body|];
      try (do 3 eexists; split; [reflexivity|];
           apply Hthrown; [reflexivity | auto | repeat split | reflexivity
                          | simpl; rewrite <- ?app_assoc; reflexivity
                          | no_store_calls]).
    destruct (position_validation_run w userInfo body now)
      as (r & w' & Hrun & Hst).
    exists r, w', []. split; [exact Hrun|].
    apply Hfine; [destruct Hst as [-> | ->]; discriminate|].
    intros [?|?]; discriminate.
  - destruct auth as [userInfo|], chat as [[message]|];
      try (do 3 eexists; split; [reflexivity|];
           apply Hthrown; [reflexivity | auto | repeat split | reflexivity
                          | simpl; rewrite <- ?app_assoc; reflexivity
                          | no_store_calls]).
    assert (Hno : ~ (Some (ChatBody.mk message) = None
                     \/ Some userInfo = None))
      by (intros [?|?]; discriminate).
    destruct message as [| | | |raw|];
      try (exists (ErrorResponse 400 "Invalid message"); do 2 eexists;
           split; [reflexivity|]; apply Hfine; [discriminate | exact Hno]).
    change (post_chat (Some (Some userInfo)) (Some (ChatBody.mk (VStr raw)))
              now random date)
      with (send (Build_ChatCall userInfo raw now random date)).
    set (c := Build_ChatCall userInfo raw now random date).
    destruct (decide (trim (call_body c) = [])) as [Hempty|Hvalid].
    + rewrite (send_invalid c w Hempty). do 3 eexists.
      split; [reflexivity|]. apply Hfine; [discriminate | exact Hno].
    + destruct (send_valid c w Hvalid) as (h & w' & -> & _).
      do 3 eexists. split; [reflexivity|].
      apply Hfine; [discriminate | exact Hno].
  - destruct auth as [userInfo|].
    + destruct (post_logout_total w userInfo statsNow)
        as (removed & n & w' & -> & _).
      do 3 eexists. split; [reflexivity|].
      apply Hfine; [discriminate | discriminate].
    + do 3 eexists. split; [reflexivity|].
      apply Hthrown; [reflexivity | auto | repeat split | reflexivity
                     | reflexivity | no_store_calls].
Qed.

Lemma server_error_iff_collaborator_throws_witness :
  exists r w' es,
    post_chat (Some None) (Some (ChatBody.mk (VStr [104%N]))) 5000 (1 # 4)
      5000 (sample_world [true])
    = (Returned r, w')
    /\ status r = 500
    /\ faults w' = [true]
    /\ trace w' = [] ++ es /\ no_store_call es.
Proof.
  destruct (server_error_iff_collaborator_throws (sample_world [true]) None
              None (Some (ChatBody.mk (VStr [104%N]))) 5000 5000 5000
              (1 # 4))
    as (_ & (r & w' & es & Hrun & Hiff & Hquiet) & _).
  assert (H500 : status r = 500) by (apply Hiff; by right).
  destruct (Hquiet H500) as (_ & Hf & Htr & Hes).
  exists r, w', es. auto.
Defined.

(** ** A failing fetch inside a read-modify-write *)

(** X9.  When the fetch of an upsert or of a chat send rejects and the write
    that follows works, the handler writes what it built from the empty
    collection: after the upsert the players collection holds the caller's
    record alone, after the send the chat sequence holds the new message
    alone, and the answer is a success with a total of 1.  Everything that
    was persisted under the key before is gone. *)
Theorem failed_fetch_overwrites_collection (w : World) (rest : list bool)
    (userInfo : UserInfo) (x y : jsnum) (emoji : jsval) (now : Z)
    (c : ChatCall) :
  faults w = true :: rest ->
  rejects_next (with_faults rest w) = false ->
  truthy emoji = true ->
  trim (call_body c) <> [] ->
  (exists w',
      post_position (Some (Some userInfo))
        (Some (PositionBody.mk (VNum x) (VNum y) emoji)) now w
      = (Returned (PositionUpdated (uuid userInfo) (Math_round x)
                     (Math_round y) 1), w')
      /\ kv_players w'
         = Some {[ uuid userInfo := upserted userInfo x y emoji now ]})
  /\ (exists w',
      send c w = (Returned (ChatSent (call_message c) 1), w')
      /\ kv_chat w' = Some [call_message c]).
Proof.
  intros Hf Hnext Hemoji Hvalid. split.
  - unfold post_position.
    cbv beta iota zeta delta [PositionBody.x PositionBody.y
      PositionBody.emoji try_catch bind request_json getUser].
    rewrite Hemoji. cbn [negb]. fold (upserted userInfo x y emoji now).
    generalize (upserted userInfo x y emoji now). intros p.
    assert (Hsz : size (<[uuid userInfo := p]> (∅ : gmap string Player.t))
                  = 1) by (rewrite insert_empty; apply map_size_singleton).
    destruct w as [ps ch st fs tr]. simpl in Hf. subst fs.
    destruct rest as [|[] rest]; try discriminate Hnext;
      eexists; (split; [rewrite <- Hsz; reflexivity|]);
      simpl; by rewrite insert_empty.
  - unfold send, post_chat.
    cbv beta iota zeta
      delta [ChatBody.message try_catch bind request_json getUser].
    rewrite (not_true_is_false _
               (fun H => Hvalid (proj1 (trim_nil_iff_invalid _) H))).
    fold (call_message c). generalize (call_message c). intros m.
    destruct w as [ps ch st fs tr]. simpl in Hf. subst fs.
    destruct rest as [|[] rest]; try discriminate Hnext;
      eexists; (split; reflexivity).
Qed.

Lemma failed_fetch_overwrites_collection_witness :
  exists w',
    post_position (Some (Some bob)) (Some centre_request) 5000
      (sample_world [true])
    = (Returned (PositionUpdated "u-bob" (NFin 30) (NFin 40) 1), w')
    /\ players_of w' !! "u-ada" = None.
Proof.
  destruct (failed_fetch_overwrites_collection (sample_world [true]) []
              bob (NFin 30) (NFin 40) smiley 5000 first_call
              eq_refl eq_refl eq_refl)
    as [(w' & Hrun & Hps) _]; [vm_compute; discriminate|].
  exists w'. split; [exact Hrun|].
  unfold players_of. rewrite Hps. reflexivity.
Defined.

(** X10.  When the fetch of a cleanup or of a logout rejects and the write that
    follows works, the handler persists the empty collection: every player
    is erased, while the answer reports that nothing was removed. *)
Theorem failed_fetch_erases_players (w : World) (rest : list bool)
    (userInfo : UserInfo) (now statsNow : Z) :
  faults w = true :: rest ->
  rejects_next (with_faults rest w) = false ->
  (exists w',
      post_cleanup now statsNow w = (Returned (CleanupDone 0 0 now), w')
      /\ kv_players w' = Some ∅)
  /\ (exists w',
      post_logout (Some (Some userInfo)) statsNow w
      = (Returned (LoggedOut false (uuid userInfo) 0), w')
      /\ kv_players w' = Some ∅).
Proof.
  intros Hf Hnext.
  assert (Hfail : rejects_next w = true)
    by (unfold rejects_next; by rewrite Hf).
  assert (Hfail' : rejects_next (log_event GetUser w) = true)
    by (unfold rejects_next; simpl; by rewrite Hf).
  split.
  - unfold post_cleanup, try_catch, bind.
    destruct (getPlayers_total w) as (m & w1 & -> & _ & Hf1 & _ & Hm).
    rewrite Hfail in Hm. subst m.
    assert (Hsw : sweep now PLAYER_TIMEOUT ∅ = (∅, 0)).
    { unfold sweep. by rewrite map_to_list_empty. }
    rewrite Hsw.
    destruct (savePlayers_total ∅ w1) as (w2 & -> & _ & _ & _ & _ & Hps).
    assert (Hok1 : rejects_next w1 = false).
    { unfold rejects_next in *. rewrite Hf1, Hf. simpl.
      destruct rest as [|[] ?]; done. }
    rewrite Hok1 in Hps.
    destruct (updateGameStats_total statsNow w2)
      as (stats & w3 & es & -> & Hps3 & _).
    eexists. split; [reflexivity|]. by rewrite Hps3.
  - unfold post_logout, try_catch, bind, getUser.
    destruct (getPlayers_total (log_event GetUser w))
      as (m & w1 & -> & _ & Hf1 & _ & Hm).
    rewrite Hfail' in Hm. subst m. rewrite delete_empty.
    destruct (savePlayers_total ∅ w1) as (w2 & -> & _ & _ & _ & _ & Hps).
    assert (Hok1 : rejects_next w1 = false).
    { unfold rejects_next in *. rewrite Hf1. simpl. rewrite Hf. simpl.
      destruct rest as [|[] ?]; done. }
    rewrite Hok1 in Hps.
    destruct (updateGameStats_total statsNow w2)
      as (stats & w3 & es & -> & Hps3 & _).
    eexists. split; [reflexivity|]. by rewrite Hps3.
Qed.

Lemma failed_fetch_erases_players_witness :
  exists w',
    post_cleanup 5000 5000 (sample_world [true])
    = (Returned (CleanupDone 0 0 5000), w')
    /\ kv_players w' = Some ∅.
Proof.
  apply (failed_fetch_erases_players (sample_world [true]) [] ada 5000 5000
           eq_refl eq_refl).
Defined.

(** ** Cleanup *)

Lemma sweep_sizes (now timeout : Z) (players : gmap string Player.t) :
  (sweep now timeout players).2 + size (sweep now timeout players).1
  = size players.
Proof.
  unfold sweep.
  destruct (sweep_loop_spec now timeout (map_to_list players) players 0)
    as [_ Hc].
  - apply NoDup_fst_map_to_list.
  - intros k q. apply elem_of_map_to_list.
  - exact Hc.
Qed.

(** X11.  The cleanup endpoint needs no authentication and cannot fail: whatever
    the store does it answers with status 200 and the time it read, and it
    never changes the chat sequence. *)
Theorem cleanup_always_answers (w : World) (now statsNow : Z) :
  exists removed active w',
    post_cleanup now statsNow w
    = (Returned (CleanupDone removed active now), w')
    /\ status (CleanupDone removed active now) = 200
    /\ kv_chat w' = kv_chat w.
Proof.
  destruct (post_cleanup_total w now statsNow)
    as (removed & active & w' & Hrun & Hch).
  exists removed, active, w'. auto.
Qed.

(** X12.  On a working store, cleanup persists exactly the players whose last
    update is at most [PLAYER_TIMEOUT] old, each with its record unchanged;
    the two counts of the answer add up to the previous number of players;
    and the statistics written afterwards show the new number of players
    and the number of chat messages. *)
Theorem cleanup_on_working_store (w : World) (now statsNow : Z) :
  faults w = [] ->
  exists removed active w',
    post_cleanup now statsNow w
    = (Returned (CleanupDone removed active now), w')
    /\ removed + active = size (players_of w)
    /\ active = size (players_of w')
    /\ (forall id p, players_of w' !! id = Some p <->
          players_of w !! id = Some p
          /\ (now - Player.lastUpdate p <= PLAYER_TIMEOUT)%Z)
    /\ kv_chat w' = kv_chat w
    /\ kv_stats w'
       = Some (GameStats.mk active (length (chat_of w)) statsNow).
Proof.
  intros Hf. destruct w as [ps ch st fs tr]. simpl in Hf. subst fs.
  pose proof (sweep_sizes now PLAYER_TIMEOUT
                (players_of (mkWorld ps ch st [] tr))) as Hsz.
  pose proof (sweep_lookup now PLAYER_TIMEOUT
                (players_of (mkWorld ps ch st [] tr))) as Hl.
  unfold post_cleanup, try_catch, bind, getPlayers, try_catch, bind,
    players_of, default in *. simpl in *.
  destruct (sweep now PLAYER_TIMEOUT _) as [players' n].
  simpl in *. do 3 eexists. split; [reflexivity|]. simpl.
  split; [exact Hsz|]. split; [reflexivity|]. split; [|split; reflexivity].
  intros id p. rewrite Hl. unfold stale. split; intros [? ?]; split; auto; lia.
Qed.

Lemma cleanup_on_working_store_witness :
  exists removed active w',
    post_cleanup 61000 61000 (sample_world [])
    = (Returned (CleanupDone removed active 61000), w')
    /\ removed + active = 3
    /\ players_of w' !! "u-bob" = sample_players !! "u-bob".
Proof.
  destruct (cleanup_on_working_store (sample_world []) 61000 61000 eq_refl)
    as (removed & active & w' & Hrun & Hsum & _ & Hkeep & _).
  exists removed, active, w'. split; [exact Hrun|]. split; [exact Hsum|].
  transitivity (Some (Player.mk "u-bob" "Bob" (VStr [9786%N])
                        (NFin 250) (NFin 250) 31000)).
  - apply Hkeep. split; [vm_compute; reflexivity|]. vm_compute. discriminate.
  - vm_compute. reflexivity.
Defined.

(** X13.  Sweeping twice.  A sweep at [now] followed by a sweep at a later (or
    the same) time leaves what a single sweep at the later time leaves, and
    the two counts add up to the count of that single sweep.  In
    particular a second sweep at the same time removes nothing. *)
Theorem sweep_then_sweep (now later timeout : Z)
    (players : gmap string Player.t) :
  (now <= later)%Z ->
  let first := sweep now timeout players in
  let second := sweep later timeout first.1 in
  second.1 = (sweep later timeout players).1
  /\ first.2 + second.2 = (sweep later timeout players).2
  /\ (later = now -> second.2 = 0 /\ second.1 = first.1).
Proof.
  intros Hle first second. subst first second.
  assert (Heq : (sweep later timeout (sweep now timeout players).1).1
                = (sweep later timeout players).1).
  { apply map_eq. intros id. apply option_eq. intros p.
    rewrite !sweep_lookup. unfold stale.
    split; [tauto|]. intros [? ?]. repeat split; auto. lia. }
  pose proof (sweep_sizes now timeout players) as H1.
  pose proof (sweep_sizes later timeout (sweep now timeout players).1) as H2.
  pose proof (sweep_sizes later timeout players) as H3.
  rewrite Heq in H2.
  split; [exact Heq|]. split; [lia|].
  intros ->. split; [lia | exact Heq].
Qed.

Lemma sweep_then_sweep_witness :
  (sweep 101000 30000 (sweep 61000 30000 sample_players).1).1
  = (sweep 101000 30000 sample_players).1.
Proof.
  apply (sweep_then_sweep 61000 101000 30000 sample_players). lia.
Defined.

(** ** The chat log, continued *)

Lemma push_capped_shape (h : list ChatMessage.t) (m : ChatMessage.t) :
  push_capped h m
  = (if decide (MAX_CHAT_HISTORY <= length h) then drop 1 h else h) ++ [m].
Proof.
  unfold push_capped. rewrite length_app. simpl.
  case_decide as Hfull.
  - destruct (Nat.ltb_spec MAX_CHAT_HISTORY (length h + 1)); [|lia].
    destruct h; [unfold MAX_CHAT_HISTORY in Hfull; simpl in Hfull; lia|].
    reflexivity.
  - destruct (Nat.ltb_spec MAX_CHAT_HISTORY (length h + 1)); [lia|].
    reflexivity.
Qed.

(** X14.  Eviction is oldest first and one message per send.  On a working
    store a valid send persists the old sequence followed by the new
    message, without its first entry when the old sequence already held
    [MAX_CHAT_HISTORY] messages or more; every other message keeps its
    place and content, and the players are not touched.  A sequence longer
    than the cap is therefore not cut back to it. *)
Theorem send_appends_and_evicts_oldest (c : ChatCall) (w : World) :
  faults w = [] ->
  trim (call_body c) <> [] ->
  exists total w',
    send c w = (Returned (ChatSent (call_message c) total), w')
    /\ chat_of w'
       = (if decide (MAX_CHAT_HISTORY <= length (chat_of w))
          then drop 1 (chat_of w) else chat_of w) ++ [call_message c]
    /\ total = length (chat_of w')
    /\ (MAX_CHAT_HISTORY <= length (chat_of w) ->
        length (chat_of w') = length (chat_of w))
    /\ kv_players w' = kv_players w.
Proof.
  intros Hf Hvalid.
  destruct (send_valid c w Hvalid) as (h & w' & Hrun & _ & _ & Hps & Hok).
  destruct (Hok Hf) as (-> & Hch & _).
  assert (Hnew : chat_of w' = push_capped (chat_of w) (call_message c))
    by (unfold chat_of at 1; by rewrite Hch).
  do 2 eexists. split; [exact Hrun|].
  rewrite Hnew. split; [apply push_capped_shape|]. split; [reflexivity|].
  split; [|exact Hps].
  intros Hfull. rewrite push_capped_length. by case_decide.
Qed.

Lemma send_appends_and_evicts_oldest_witness :
  exists total w',
    send first_call (sample_world [])
    = (Returned (ChatSent (call_message first_call) total), w')
    /\ chat_of w' = sample_chat ++ [call_message first_call].
Proof.
  destruct (send_appends_and_evicts_oldest first_call (sample_world [])
              eq_refl)
    as (total & w' & Hrun & Hchat & _); [vm_compute; discriminate|].
  exists total, w'. split; [exact Hrun | exact Hchat].
Defined.

(** *** What [trim] leaves *)

Lemma trimStart_split (s : jsstring) :
  exists lead, s = lead ++ trimStart s
               /\ Forall (fun c => is_white_space c = true) lead.
Proof.
  induction s as [|c s (lead & Hs & Hlead)]; [by exists []|].
  simpl. destruct (is_white_space c) eqn:Hc.
  - exists (c :: lead). split; [by rewrite Hs at 1 | by constructor].
  - by exists [].
Qed.

Lemma trimStart_head (s : jsstring) (c : N) :
  head (trimStart s) = Some c -> is_white_space c = false.
Proof.
  induction s as [|d s IH]; [done|]. simpl.
  destruct (is_white_space d) eqn:Hd; [exact IH|].
  simpl. by intros [= <-].
Qed.

Lemma trimStart_fixed (s : jsstring) :
  (forall c, head s = Some c -> is_white_space c = false) ->
  trimStart s = s.
Proof.
  destruct s as [|c s]; [done|]. intros H. simpl. by rewrite (H c eq_refl).
Qed.

Lemma trimStart_snoc (s rest : jsstring) (c : N) :
  is_white_space c = false ->
  trimStart (s ++ c :: rest) = trimStart s ++ c :: rest.
Proof.
  intros Hc. induction s as [|d s IH]; simpl; [by rewrite Hc|].
  by destruct (is_white_space d).
Qed.

Lemma trimEnd_split (s : jsstring) :
  exists trail, s = trimEnd s ++ trail
                /\ Forall (fun c => is_white_space c = true) trail.
Proof.
  destruct (trimStart_split (rev s)) as (lead & Hs & Hlead).
  exists (rev lead). unfold trimEnd. split.
  - rewrite <- rev_app_distr, <- Hs. by rewrite rev_involutive.
  - by apply Forall_rev.
Qed.

Lemma last_rev {A} (l : list A) : last (rev l) = head l.
Proof. rewrite rev_alt. apply (last_reverse l). Qed.

Lemma trimEnd_last (s : jsstring) (c : N) :
  last (trimEnd s) = Some c -> is_white_space c = false.
Proof.
  unfold trimEnd. rewrite last_rev. apply trimStart_head.
Qed.

Lemma trimEnd_head (s : jsstring) (c : N) :
  is_white_space c = false ->
  head s = Some c -> head (trimEnd s) = Some c.
Proof.
  intros Hc. destruct s as [|d s]; [done|]. simpl. intros [= ->].
  unfold trimEnd. simpl. rewrite trimStart_snoc by done.
  by rewrite rev_app_distr.
Qed.

Lemma trim_head (s : jsstring) (c : N) :
  head (trim s) = Some c -> is_white_space c = false.
Proof.
  unfold trim. intros H.
  destruct (trimStart s) as [|d t] eqn:Ht; [done|].
  assert (Hd : is_white_space d = false)
    by (apply (trimStart_head s); by rewrite Ht).
  rewrite (trimEnd_head (d :: t) d Hd eq_refl) in H. by injection H as <-.
Qed.

Lemma trim_idempotent (s : jsstring) : trim (trim s) = trim s.
Proof.
  unfold trim at 1.
  rewrite (trimStart_fixed (trim s)) by apply trim_head.
  unfold trim, trimEnd. rewrite rev_involutive.
  rewrite (trimStart_fixed (trimStart (rev (trimStart s)))); [done|].
  apply trimStart_head.
Qed.

(** [trim] removes white space from both ends and nothing else: the body
    is some white space, the trimmed body, some white space; the trimmed
    body neither starts nor ends with white space; trimming again changes
    nothing. *)
Lemma trim_strips_both_ends (s : jsstring) :
  (exists lead trail,
      s = lead ++ trim s ++ trail
      /\ Forall (fun c => is_white_space c = true) lead
      /\ Forall (fun c => is_white_space c = true) trail)
  /\ (forall c, head (trim s) = Some c -> is_white_space c = false)
  /\ (forall c, last (trim s) = Some c -> is_white_space c = false)
  /\ trim (trim s) = trim s.
Proof.
  split; [|split; [apply trim_head|split; [|apply trim_idempotent]]].
  - destruct (trimStart_split s) as (lead & Hs & Hlead).
    destruct (trimEnd_split (trimStart s)) as (trail & Ht & Htrail).
    exists lead, trail. unfold trim. by rewrite <- Ht.
  - intros c. unfold trim. apply trimEnd_last.
Qed.

(** X15.  The body of every message a send creates is not empty, has at most 200
    code units, starts with a code unit that is not white space, and is a
    prefix of the trimmed body of the request. *)
Theorem created_message_shape (c : ChatCall) (w : World) :
  trim (call_body c) <> [] ->
  exists total w' rest first,
    send c w = (Returned (ChatSent (call_message c) total), w')
    /\ trim (call_body c) = ChatMessage.message (call_message c) ++ rest
    /\ head (ChatMessage.message (call_message c)) = Some first
    /\ is_white_space first = false
    /\ 0 < length (ChatMessage.message (call_message c)) <= 200
    /\ ChatMessage.userId (call_message c) = uuid (call_user c).
Proof.
  intros Hvalid.
  destruct (send_valid c w Hvalid) as (h & w' & Hrun & _).
  destruct (trim (call_body c)) as [|first t] eqn:Ht; [done|].
  exists (length (push_capped h (call_message c))), w',
    (drop 200 (first :: t)), first.
  split; [exact Hrun|].
  unfold call_message, substring0. cbn [ChatMessage.message ChatMessage.userId].
  rewrite Ht. split; [by rewrite take_drop|].
  split; [reflexivity|].
  split; [apply (trim_head (call_body c)); by rewrite Ht|].
  split; [|reflexivity].
  rewrite length_take. simpl length. lia.
Qed.

Lemma created_message_shape_witness :
  exists total w',
    send long_call (sample_world [true; true])
    = (Returned (ChatSent (call_message long_call) total), w')
    /\ length (ChatMessage.message (call_message long_call)) <= 200.
Proof.
  destruct (created_message_shape long_call (sample_world [true; true]))
    as (total & w' & rest & first & Hrun & _ & _ & _ & Hlen & _);
    [vm_compute; discriminate|].
  exists total, w'. split; [exact Hrun | apply Hlen].
Defined.

(** ** Logout, and how the operations compose *)

(** X16.  On a working store a logout removes the record of the caller and
    nothing else: every other identity keeps its record, the chat sequence
    is untouched, [remainingPlayers] is the previous size less one when the
    caller was present, and the statistics written afterwards show that
    number and the number of chat messages. *)
Theorem logout_removes_one_identity (w : World) (userInfo : UserInfo)
    (statsNow : Z) :
  faults w = [] ->
  exists removed remaining w',
    post_logout (Some (Some userInfo)) statsNow w
    = (Returned (LoggedOut removed (uuid userInfo) remaining), w')
    /\ players_of w' !! uuid userInfo = None
    /\ (forall other, other <> uuid userInfo ->
          players_of w' !! other = players_of w !! other)
    /\ remaining
       = (if removed then pred (size (players_of w))
          else size (players_of w))
    /\ kv_chat w' = kv_chat w
    /\ kv_stats w'
       = Some (GameStats.mk remaining (length (chat_of w)) statsNow).
Proof.
  intros Hf. destruct w as [ps ch st fs tr]. simpl in Hf. subst fs.
  do 3 eexists. split; [reflexivity|].
  unfold players_of. cbn [kv_players kv_chat kv_stats default].
  fold (players_of (mkWorld ps ch st [] tr)).
  split; [apply lookup_delete_eq|].
  split; [intros other Hne; by apply lookup_delete_ne|].
  split; [|split; reflexivity].
  rewrite map_size_delete. case_bool_decide as Hin.
  - destruct Hin as [p Hp]. cbn in Hp |- *. by rewrite Hp.
  - apply eq_None_not_Some in Hin. cbn in Hin |- *. by rewrite Hin.
Qed.

Lemma logout_removes_one_identity_witness :
  exists removed remaining w',
    post_logout (Some (Some ada)) 5000 (sample_world [])
    = (Returned (LoggedOut removed "u-ada" remaining), w')
    /\ players_of w' !! "u-ada" = None
    /\ players_of w' !! "u-eve" = sample_players !! "u-eve".
Proof.
  destruct (logout_removes_one_identity (sample_world []) ada 5000 eq_refl)
    as (removed & remaining & w' & Hrun & Hgone & Hother & _).
  exists removed, remaining, w'. split; [exact Hrun|].
  split; [exact Hgone|]. apply (Hother "u-eve"). discriminate.
Defined.

(** X17.  Liveness.  On a working store, a player upserted at [now] is still in
    the collection after a cleanup at [later] when
    [later - now <= PLAYER_TIMEOUT], with the record of the upsert, and is
    gone after it when [later - now > PLAYER_TIMEOUT]. *)
Theorem upsert_survives_until_timeout (w : World) (userInfo : UserInfo)
    (x y : jsnum) (emoji : jsval) (now later statsNow : Z) :
  faults w = [] ->
  truthy emoji = true ->
  let w1 := (post_position (Some (Some userInfo))
               (Some (PositionBody.mk (VNum x) (VNum y) emoji)) now w).2 in
  let w2 := (post_cleanup later statsNow w1).2 in
  ((later - now <= PLAYER_TIMEOUT)%Z ->
     players_of w2 !! uuid userInfo = Some (upserted userInfo x y emoji now))
  /\ ((later - now > PLAYER_TIMEOUT)%Z ->
     players_of w2 !! uuid userInfo = None).
Proof.
  intros Hf Hemoji w1 w2. subst w1 w2.
  destruct (post_position_ok w userInfo x y emoji now Hf Hemoji)
    as (w1 & -> & Hps & _ & _ & Hf1).
  cbn [snd].
  destruct (post_cleanup_sweeps w1 later statsNow Hf1) as (w2 & -> & Hps2 & _).
  cbn [snd]. unfold players_of at 1 2. rewrite Hps2. cbn [default].
  assert (Hin : players_of w1 !! uuid userInfo
                = Some (upserted userInfo x y emoji now)).
  { unfold players_of at 1. rewrite Hps. apply lookup_insert_eq. }
  split; intros Hage.
  - apply sweep_lookup. split; [exact Hin|]. unfold stale, upserted.
    cbn [Player.lastUpdate]. lia.
  - apply eq_None_not_Some. intros [q Hq].
    apply sweep_lookup in Hq as [Hq Hfresh]. rewrite Hin in Hq.
    injection Hq as <-. apply Hfresh. unfold stale, upserted.
    cbn [Player.lastUpdate]. lia.
Qed.

Lemma upsert_survives_until_timeout_witness :
  players_of
    (post_cleanup 35000 35000
       (post_position (Some (Some bob)) (Some centre_request) 5000
          (sample_world [])).2).2 !! "u-bob"
  = Some (Player.mk "u-bob" "Bob" smiley (NFin 30) (NFin 40) 5000).
Proof.
  apply (upsert_survives_until_timeout (sample_world []) bob (NFin 30)
           (NFin 40) smiley 5000 35000 35000 eq_refl eq_refl).
  vm_compute. discriminate.
Defined.

(** X18.  Upsert, then logout.  On a working store a logout that follows an
    upsert of the same identity reports that a player was removed, leaves
    the collection as it was before the upsert less that identity, and
    reports one player fewer than the upsert did. *)
Theorem upsert_then_logout (w : World) (userInfo : UserInfo) (x y : jsnum)
    (emoji : jsval) (now statsNow : Z) :
  faults w = [] ->
  truthy emoji = true ->
  exists total w1 remaining w2,
    post_position (Some (Some userInfo))
      (Some (PositionBody.mk (VNum x) (VNum y) emoji)) now w
    = (Returned (PositionUpdated (uuid userInfo) (Math_round x) (Math_round y)
                   total), w1)
    /\ post_logout (Some (Some userInfo)) statsNow w1
       = (Returned (LoggedOut true (uuid userInfo) remaining), w2)
    /\ players_of w2 = delete (uuid userInfo) (players_of w)
    /\ total = S remaining.
Proof.
  intros Hf Hemoji.
  destruct (post_position_ok w userInfo x y emoji now Hf Hemoji)
    as (w1 & Hrun & Hps & _ & _ & Hf1).
  destruct (post_logout_ok w1 userInfo statsNow Hf1) as (w2 & Hout & Hps2 & _).
  assert (Hw1 : players_of w1
                = <[uuid userInfo := upserted userInfo x y emoji now]>
                    (players_of w))
    by (unfold players_of at 1; by rewrite Hps).
  rewrite Hw1 in Hout, Hps2. rewrite lookup_insert_eq in Hout.
  rewrite delete_insert_eq in Hout, Hps2.
  rewrite bool_decide_eq_true_2 in Hout by eauto.
  do 4 eexists. split; [exact Hrun|]. split; [exact Hout|].
  split; [unfold players_of at 1; by rewrite Hps2|].
  rewrite <- (insert_delete_eq (players_of w)).
  apply map_size_insert_None, lookup_delete_eq.
Qed.

Lemma upsert_then_logout_witness :
  exists total w1 remaining w2,
    post_position (Some (Some bob)) (Some centre_request) 5000
      (sample_world [])
    = (Returned (PositionUpdated "u-bob" (NFin 30) (NFin 40) total), w1)
    /\ post_logout (Some (Some bob)) 5001 w1
       = (Returned (LoggedOut true "u-bob" remaining), w2)
    /\ total = S remaining.
Proof.
  destruct (upsert_then_logout (sample_world []) bob (NFin 30) (NFin 40)
              smiley 5000 5001 eq_refl eq_refl)
    as (total & w1 & remaining & w2 & Hrun & Hout & _ & Htotal).
  exists total, w1, remaining, w2. auto.
Defined.

(** ** The statistics *)

(** X19.  On a working store [updateGameStats] returns and persists the
    number of players and of chat messages with the time it read.  When
    its write rejects it returns zero for both counts, whatever the store
    holds, and the three keys keep their old values. *)
Theorem updateGameStats_counts_or_zero (w : World) (now : Z) :
  (faults w = [] ->
   exists w',
     updateGameStats now w
     = (Returned (GameStats.mk (size (players_of w)) (length (chat_of w)) now),
        w')
     /\ kv_stats w'
        = Some (GameStats.mk (size (players_of w)) (length (chat_of w)) now))
  /\ (forall g1 g2 rest, faults w = g1 :: g2 :: true :: rest ->
      exists w',
        updateGameStats now w = (Returned (GameStats.mk 0 0 now), w')
        /\ same_store w w').
Proof.
  destruct w as [ps ch st fs tr]. split.
  - simpl. intros ->. eexists. split; reflexivity.
  - simpl. intros g1 g2 rest ->.
    destruct g1, g2; eexists; (split; [reflexivity|]); repeat split.
Qed.

Lemma updateGameStats_counts_or_zero_witness :
  (updateGameStats 9 (sample_world [])).1 = Returned (GameStats.mk 3 2 9)
  /\ (updateGameStats 9 (sample_world [false; false; true])).1
     = Returned (GameStats.mk 0 0 9).
Proof.
  destruct (updateGameStats_counts_or_zero (sample_world []) 9)
    as [Hok _].
  destruct (updateGameStats_counts_or_zero
              (sample_world [false; false; true]) 9) as [_ Hzero].
  destruct (Hok eq_refl) as (w1 & H1 & _).
  destruct (Hzero false false [] eq_refl) as (w2 & H2 & _).
  split; [rewrite H1; vm_compute; reflexivity | by rewrite H2].
Defined.

(** ** An invariant of the players collection *)

Lemma well_keyed_empty : well_keyed ∅.
Proof. intros k p. by rewrite lookup_empty. Qed.

Lemma well_keyed_insert (players : gmap string Player.t) (p : Player.t) :
  well_keyed players -> well_keyed (<[Player.id p := p]> players).
Proof.
  intros Hwk k q. rewrite lookup_insert_Some.
  intros [[<- <-]|[_ Hq]]; [done | by apply Hwk].
Qed.

Lemma well_keyed_delete (players : gmap string Player.t) (k : string) :
  well_keyed players -> well_keyed (delete k players).
Proof.
  intros Hwk j q. rewrite lookup_delete_Some. intros [_ Hq]. by apply Hwk.
Qed.

Lemma well_keyed_sweep (players : gmap string Player.t) (now timeout : Z) :
  well_keyed players -> well_keyed (sweep now timeout players).1.
Proof.
  intros Hwk j q. rewrite sweep_lookup. intros [Hq _]. by apply Hwk.
Qed.

Lemma read_modify_write (f : gmap string Player.t -> gmap string Player.t)
    (w : World) :
  exists m w1 w2,
    getPlayers w = (Returned m, w1)
    /\ savePlayers (f m) w1 = (Returned tt, w2)
    /\ players_written f w w2.
Proof.
  destruct (getPlayers_total w) as (m & w1 & Hget & (Hp1 & _) & _ & _ & Hm).
  destruct (savePlayers_total (f m) w1) as (w2 & Hset & _ & _ & _ & _ & Hp2).
  exists m, w1, w2. split; [exact Hget|]. split; [exact Hset|].
  unfold players_written. rewrite Hp2, <- Hp1.
  destruct (rejects_next w1); [by left|].
  destruct (rejects_next w); subst m; auto.
Qed.

Lemma post_position_written (w : World) (user : User)
    (request : option PositionBody.t) (now : Z) :
  exists p, players_written (insert (Player.id p) p) w
              (post_position user request now w).2.
Proof.
  set (nobody := Player.mk "" "" VNull NNaN NNaN 0).
  destruct user as [[userInfo|]|], request as [[bx by_ emoji]|];
    try (exists nobody; by left).
  destruct bx as [| | |x| |], by_ as [| | |y| |];
    try (exists nobody; by left).
  destruct (truthy emoji) eqn:Hemoji.
  2:{ exists nobody. left. unfold post_position.
      cbv beta iota zeta delta [PositionBody.x PositionBody.y
        PositionBody.emoji try_catch bind request_json getUser].
      by rewrite Hemoji. }
  exists (upserted userInfo x y emoji now).
  unfold post_position.
  cbv beta iota zeta delta [PositionBody.x PositionBody.y
    PositionBody.emoji try_catch bind request_json getUser].
  rewrite Hemoji. cbn [negb]. fold (upserted userInfo x y emoji now).
  destruct (read_modify_write
              (insert (uuid userInfo) (upserted userInfo x y emoji now))
              (log_event GetUser (log_event ReadBody w)))
    as (m & w1 & w2 & -> & Hset & Hw).
  rewrite Hset. exact Hw.
Qed.

Lemma post_logout_written (w : World) (user : User) (statsNow : Z) :
  exists k, players_written (delete k) w (post_logout user statsNow w).2.
Proof.
  destruct user as [[userInfo|]|]; try (exists ""; by left).
  exists (uuid userInfo).
  unfold post_logout, try_catch, bind, getUser.
  destruct (read_modify_write (delete (uuid userInfo))
              (log_event GetUser w)) as (m & w1 & w2 & -> & Hset & Hw).
  rewrite Hset.
  destruct (updateGameStats_total statsNow w2)
    as (stats & w3 & es & -> & Hp3 & _).
  cbn [snd ret]. unfold players_written in *. by rewrite Hp3.
Qed.

Lemma post_cleanup_written (w : World) (now statsNow : Z) :
  players_written (fun m => (sweep now PLAYER_TIMEOUT m).1) w
    (post_cleanup now statsNow w).2.
Proof.
  unfold post_cleanup, try_catch, bind.
  destruct (read_modify_write (fun m => (sweep now PLAYER_TIMEOUT m).1) w)
    as (m & w1 & w2 & -> & Hset & Hw).
  destruct (sweep now PLAYER_TIMEOUT m) as [players' n]. cbn [fst] in Hset.
  rewrite Hset.
  destruct (updateGameStats_total statsNow w2)
    as (stats & w3 & es & -> & Hp3 & _).
  cbn [snd ret]. unfold players_written in *. by rewrite Hp3.
Qed.

Lemma well_keyed_written (f : gmap string Player.t -> gmap string Player.t)
    (w w' : World) :
  (forall m, well_keyed m -> well_keyed (f m)) ->
  players_written f w w' ->
  well_keyed (players_of w) -> well_keyed (players_of w').
Proof.
  intros Hf [Heq|[Heq|Heq]] Hwk; unfold players_of at 1; rewrite Heq.
  - exact Hwk.
  - by apply Hf.
  - apply Hf, well_keyed_empty.
Qed.

(** X20.  Every record is stored under its own identity, and the handlers keep
    it so: if each record of the persisted collection has the key it is
    stored under as its [id], the same holds after an upsert, a logout or a
    cleanup, for every caller, every body and whatever the store does; and
    then GET /api/players on a store whose fetch works lists no identity
    twice. *)
Theorem records_stay_under_their_id (w : World) (user : User)
    (request : option PositionBody.t) (now statsNow : Z) :
  well_keyed (players_of w) ->
  well_keyed (players_of (post_position user request now w).2)
  /\ well_keyed (players_of (post_logout user statsNow w).2)
  /\ well_keyed (players_of (post_cleanup now statsNow w).2)
  /\ (rejects_next w = false ->
      exists playerList w',
        get_players now w
        = (Returned (PlayersList playerList (size (players_of w)) now), w')
        /\ NoDup (Player.id <$> playerList)).
Proof.
  intros Hwk. split; [|split; [|split]].
  - destruct (post_position_written w user request now) as (p & Hw).
    eapply well_keyed_written; [|exact Hw|exact Hwk].
    intros m. apply well_keyed_insert.
  - destruct (post_logout_written w user statsNow) as (k & Hw).
    eapply well_keyed_written; [|exact Hw|exact Hwk].
    intros m. apply well_keyed_delete.
  - eapply well_keyed_written; [|apply post_cleanup_written|exact Hwk].
    intros m Hm. by apply well_keyed_sweep.
  - intros Hok. destruct (getPlayers_ok w Hok) as (w' & Hget & _).
    do 2 eexists. unfold get_players, try_catch, bind. rewrite Hget.
    cbn [ret]. rewrite length_fmap, length_map_to_list.
    split; [reflexivity|].
    assert (Hids : Player.id <$> (map_to_list (players_of w)).*2
                   = (map_to_list (players_of w)).*1).
    { rewrite <- list_fmap_compose. apply list_fmap_ext.
      intros i [k p] Hkp. simpl. apply Hwk.
      apply elem_of_map_to_list. apply list_elem_of_lookup. eauto. }
    rewrite Hids. apply NoDup_fst_map_to_list.
Qed.

Lemma records_stay_under_their_id_witness :
  well_keyed
    (players_of
       (post_position (Some (Some bob)) (Some off_grid_request) 5000
          (sample_world [true; false])).2).
Proof.
  refine (proj1 (records_stay_under_their_id (sample_world [true; false])
                   (Some (Some bob)) (Some off_grid_request) 5000 5000 _)).
  intros k p Hp.
  change (players_of (sample_world [true; false])) with sample_players in Hp.
  apply elem_of_map_to_list in Hp.
  set (l := map_to_list sample_players) in Hp. vm_compute in l. subst l.
  repeat (apply elem_of_cons in Hp as [[= -> ->]|Hp]; [reflexivity|]).
  by apply elem_of_nil in Hp.
Defined.

(** ** Two requests at once *)

(** The handler of a valid upsert is its read half followed by its write
    half. *)
Lemma post_position_phases (userInfo : UserInfo) (x y : jsnum)
    (emoji : jsval) (now : Z) :
  truthy emoji = true ->
  post_position (Some (Some userInfo))
    (Some (PositionBody.mk (VNum x) (VNum y) emoji)) now
  = try_catch
      (body <- request_json
                 (Some (PositionBody.mk (VNum x) (VNum y) emoji)) ;;
       userInfo' <- getUser (Some userInfo) ;;
       players <- upsert_read ;;
       upsert_write userInfo' x y emoji now players)
      (ret (ErrorResponse 500 "Server error")).
Proof.
  intros Hemoji. unfold post_position.
  cbv beta iota zeta delta [PositionBody.x PositionBody.y PositionBody.emoji
    try_catch bind request_json getUser upsert_write upsert_read].
  by rewrite Hemoji.
Qed.

(** X21.  The lost update.  When two valid upserts of different identities run
    on a working store so that both read the collection before either
    writes it, both answer with success, but the collection persisted in
    the end is the one of the second writer: the first writer's identity
    reads as it did before the two requests, so a player that was new is
    absent although its upsert reported it in [totalPlayers]. *)
Theorem racing_upserts_lose_an_update (w : World) (a b : UserInfo)
    (xa ya xb yb : jsnum) (ea eb : jsval) (ta tb : Z) :
  faults w = [] ->
  uuid a <> uuid b ->
  exists total_a total_b w',
    racing_upserts a b xa ya xb yb ea eb ta tb w
    = (Returned (PositionUpdated (uuid a) (Math_round xa) (Math_round ya)
                   total_a,
                 PositionUpdated (uuid b) (Math_round xb) (Math_round yb)
                   total_b), w')
    /\ players_of w'
       = <[uuid b := upserted b xb yb eb tb]> (players_of w)
    /\ players_of w' !! uuid a = players_of w !! uuid a
    /\ (players_of w !! uuid a = None -> players_of w' !! uuid a = None)
    /\ total_a = size (<[uuid a := upserted a xa ya ea ta]> (players_of w)).
Proof.
  intros Hf Hne. destruct w as [ps ch st fs tr]. simpl in Hf. subst fs.
  do 3 eexists. split; [reflexivity|].
  unfold players_of. simpl.
  split; [reflexivity|].
  rewrite lookup_insert_ne by done.
  split; [reflexivity|]. split; [done | reflexivity].
Qed.

Lemma racing_upserts_lose_an_update_witness :
  exists total_a total_b w',
    racing_upserts (Build_UserInfo "u-kim" "Kim") bob (NFin 1) (NFin 2)
      (NFin 3) (NFin 4) smiley smiley 5000 5001 (sample_world [])
    = (Returned (PositionUpdated "u-kim" (NFin 1) (NFin 2) total_a,
                 PositionUpdated "u-bob" (NFin 3) (NFin 4) total_b), w')
    /\ players_of w' !! "u-kim" = None.
Proof.
  destruct (racing_upserts_lose_an_update (sample_world [])
              (Build_UserInfo "u-kim" "Kim") bob (NFin 1) (NFin 2) (NFin 3)
              (NFin 4) smiley smiley 5000 5001 eq_refl)
    as (ta & tb & w' & Hrun & _ & _ & Hlost & _); [discriminate|].
  exists ta, tb, w'. split; [exact Hrun|]. apply Hlost. reflexivity.
Defined.

(** ** Send, then read; and which key a handler may touch *)

(** X22.  Send, then read.  On a working store, GET /api/chat after a valid send
    lists the created message last, and its [totalMessages] is the one the
    send answered. *)
Theorem send_then_get_chat (c : ChatCall) (w : World) (later : Z) :
  faults w = [] ->
  trim (call_body c) <> [] ->
  exists total w1 messages w2,
    send c w = (Returned (ChatSent (call_message c) total), w1)
    /\ get_chat later w1 = (Returned (ChatMessages messages total later), w2)
    /\ last messages = Some (call_message c).
Proof.
  intros Hf Hvalid.
  destruct (send_valid c w Hvalid) as (h & w1 & Hrun & _ & _ & _ & Hok).
  destruct (Hok Hf) as (-> & Hch & Hf1).
  assert (Hok1 : rejects_next w1 = false)
    by (unfold rejects_next; by rewrite Hf1).
  destruct (getChatHistory_ok w1 Hok1) as (w2 & Hget & _).
  do 4 eexists. split; [exact Hrun|].
  unfold get_chat, try_catch, bind. rewrite Hget.
  unfold chat_of. rewrite Hch. cbn [default ret].
  split; [reflexivity|].
  destruct (push_capped_drop (chat_of w) (call_message c))
    as (d & Hd & Hd1 & _).
  pose proof (push_capped_last (chat_of w) (call_message c)) as Hlast.
  unfold chat_of in Hd, Hlast.
  destruct (slice_last_suffix MAX_CHAT_DISPLAY
              (push_capped (default [] (kv_chat w)) (call_message c)))
    as (older & Hsplit & Hlen).
  specialize (Hlen ltac:(unfold MAX_CHAT_DISPLAY; lia)).
  rewrite Hsplit in Hlast at 1.
  rewrite last_app in Hlast.
  destruct (last (slice_last MAX_CHAT_DISPLAY _)) as [m|] eqn:Hl; [done|].
  apply last_None in Hl. rewrite Hl in Hlen. cbn [length] in Hlen.
  assert (0 < length (push_capped (default [] (kv_chat w)) (call_message c))).
  { rewrite push_capped_length. case_decide; unfold MAX_CHAT_HISTORY in *; lia. }
  unfold MAX_CHAT_DISPLAY in Hlen. lia.
Qed.

Lemma send_then_get_chat_witness :
  exists total w1 messages w2,
    send first_call (sample_world [])
    = (Returned (ChatSent (call_message first_call) total), w1)
    /\ get_chat 9 w1 = (Returned (ChatMessages messages total 9), w2)
    /\ last messages = Some (call_message first_call).
Proof.
  apply (send_then_get_chat first_call (sample_world []) 9 eq_refl).
  vm_compute. discriminate.
Defined.

Lemma post_position_keeps_chat (w : World) (user : User)
    (request : option PositionBody.t) (now : Z) :
  kv_chat (post_position user request now w).2 = kv_chat w.
Proof.
  destruct user as [[userInfo|]|], request as [[bx by_ emoji]|]; try done.
  destruct bx as [| | |x| |], by_ as [| | |y| |]; try done.
  destruct (truthy emoji) eqn:Hemoji.
  - destruct (post_position_valid w userInfo x y emoji now Hemoji)
      as (base & w' & -> & _ & Hch & _). exact Hch.
  - unfold post_position.
    cbv beta iota zeta delta [PositionBody.x PositionBody.y
      PositionBody.emoji try_catch bind request_json getUser].
    by rewrite Hemoji.
Qed.

Lemma post_chat_keeps_players (w : World) (user : User)
    (request : option ChatBody.t) (now date : Z) (random : Q) :
  kv_players (post_chat user request now random date w).2 = kv_players w.
Proof.
  destruct user as [[userInfo|]|], request as [[message]|]; try done.
  destruct message as [| | | |raw|]; try done.
  change (post_chat (Some (Some userInfo)) (Some (ChatBody.mk (VStr raw)))
            now random date)
    with (send (Build_ChatCall userInfo raw now random date)).
  set (c := Build_ChatCall userInfo raw now random date).
  destruct (decide (trim (call_body c) = [])) as [Hempty|Hvalid].
  - by rewrite (send_invalid c w Hempty).
  - destruct (send_valid c w Hvalid) as (h & w' & -> & _ & _ & Hps & _).
    exact Hps.
Qed.

(** X23.  Each collection has its own writers.  Whatever the caller, the body
    and the store do, an upsert, a logout and a cleanup never change the
    chat sequence, and a chat send never changes the players
    collection. *)
Theorem handlers_keep_to_their_key (w : World) (user : User)
    (position : option PositionBody.t) (chat : option ChatBody.t)
    (now date statsNow : Z) (random : Q) :
  kv_chat (post_position user position now w).2 = kv_chat w
  /\ kv_chat (post_logout user statsNow w).2 = kv_chat w
  /\ kv_chat (post_cleanup now statsNow w).2 = kv_chat w
  /\ kv_players (post_chat user chat now random date w).2 = kv_players w.
Proof.
  split; [apply post_position_keeps_chat|]. split; [|split].
  - destruct user as [[userInfo|]|]; try done.
    by destruct (post_logout_total w userInfo statsNow)
      as (removed & n & w' & -> & Hch).
  - by destruct (post_cleanup_total w now statsNow)
      as (removed & active & w' & -> & Hch).
  - apply post_chat_keeps_players.
Qed.

(** * Properties of the game client *)

(** ** Movement *)

Lemma Math_max_cases (a b : Q) :
  (Math_max a b = a \/ Math_max a b = b)
  /\ (a <= Math_max a b /\ b <= Math_max a b)%Q.
Proof.
  unfold Math_max. destruct (Qle_bool a b) eqn:Hle.
  - apply Qle_bool_iff in Hle. split; [by right|]. split; lra.
  - assert (~ (a <= b)%Q) by (rewrite <- Qle_bool_iff; congruence).
    split; [by left|]. split; lra.
Qed.

Lemma Math_min_cases (a b : Q) :
  (Math_min a b = a \/ Math_min a b = b)
  /\ (Math_min a b <= a /\ Math_min a b <= b)%Q.
Proof.
  unfold Math_min. destruct (Qle_bool a b) eqn:Hle.
  - apply Qle_bool_iff in Hle. split; [by left|]. split; lra.
  - assert (~ (a <= b)%Q) by (rewrite <- Qle_bool_iff; congruence).
    split; [by right|]. split; lra.
Qed.

Lemma handleKeyPress_on_field (e : Key) (gs : GameState) :
  on_field gs -> on_field (handleKeyPress e gs).
Proof.
  unfold on_field, handleKeyPress, PLAYER_SIZE, MOVE_SPEED, GRID_SIZE.
  intros (Hx1 & Hx2 & Hy1 & Hy2).
  destruct (gameStarted gs); [|done].
  destruct e; cbn [negb position_x position_y]; try done.
  - destruct (Math_max_cases (20 / 2) (position_y gs - 20))
      as [[-> | ->] [? ?]]; repeat split; lra.
  - destruct (Math_min_cases (inject_Z 500 - 20 / 2) (position_y gs + 20))
      as [[-> | ->] [? ?]]; repeat split; lra.
  - destruct (Math_max_cases (20 / 2) (position_x gs - 20))
      as [[-> | ->] [? ?]]; repeat split; lra.
  - destruct (Math_min_cases (inject_Z 500 - 20 / 2) (position_x gs + 20))
      as [[-> | ->] [? ?]]; repeat split; lra.
Qed.

Lemma handleKeyPress_step (e : Key) (gs : GameState) :
  on_field gs ->
  (position_x gs - MOVE_SPEED <= position_x (handleKeyPress e gs)
   /\ position_x (handleKeyPress e gs) <= position_x gs + MOVE_SPEED
   /\ position_y gs - MOVE_SPEED <= position_y (handleKeyPress e gs)
   /\ position_y (handleKeyPress e gs) <= position_y gs + MOVE_SPEED)%Q
  /\ (position_x (handleKeyPress e gs) = position_x gs
      \/ position_y (handleKeyPress e gs) = position_y gs).
Proof.
  unfold on_field, handleKeyPress, PLAYER_SIZE, MOVE_SPEED, GRID_SIZE.
  intros (Hx1 & Hx2 & Hy1 & Hy2).
  destruct (gameStarted gs); cbn [negb]; [|split; [lra | by left]].
  destruct e; cbn [position_x position_y];
    try (split; [lra | by left]).
  - destruct (Math_max_cases (20 / 2) (position_y gs - 20))
      as [[-> | ->] [? ?]]; (split; [lra | by left]).
  - destruct (Math_min_cases (inject_Z 500 - 20 / 2) (position_y gs + 20))
      as [[-> | ->] [? ?]]; (split; [lra | by left]).
  - destruct (Math_max_cases (20 / 2) (position_x gs - 20))
      as [[-> | ->] [? ?]]; (split; [lra | by right]).
  - destruct (Math_min_cases (inject_Z 500 - 20 / 2) (position_x gs + 20))
      as [[-> | ->] [? ?]]; (split; [lra | by right]).
Qed.

Lemma handleKeyPress_on_lattice (e : Key) (gs : GameState) :
  on_lattice gs -> on_lattice (handleKeyPress e gs).
Proof.
  unfold on_lattice, handleKeyPress, PLAYER_SIZE, MOVE_SPEED, GRID_SIZE.
  intros (zx & zy & Hx & Hy).
  destruct (gameStarted gs); [|by exists zx, zy].
  destruct e; cbn [negb position_x position_y]; try (by exists zx, zy).
  - destruct (Math_max_cases (20 / 2) (position_y gs - 20))
      as [[-> | ->] _]; [exists zx, 10%Z | exists zx, (zy - 20)%Z];
      (split; [done|]); [reflexivity|].
    rewrite Hy. unfold Z.sub. rewrite inject_Z_plus. reflexivity.
  - destruct (Math_min_cases (inject_Z 500 - 20 / 2) (position_y gs + 20))
      as [[-> | ->] _]; [exists zx, 490%Z | exists zx, (zy + 20)%Z];
      (split; [done|]); [reflexivity|].
    rewrite Hy, inject_Z_plus. reflexivity.
  - destruct (Math_max_cases (20 / 2) (position_x gs - 20))
      as [[-> | ->] _]; [exists 10%Z, zy | exists (zx - 20)%Z, zy];
      (split; [|done]); [reflexivity|].
    rewrite Hx. unfold Z.sub. rewrite inject_Z_plus. reflexivity.
  - destruct (Math_min_cases (inject_Z 500 - 20 / 2) (position_x gs + 20))
      as [[-> | ->] _]; [exists 490%Z, zy | exists (zx + 20)%Z, zy];
      (split; [|done]); [reflexivity|].
    rewrite Hx, inject_Z_plus. reflexivity.
Qed.

Lemma handleKeyPress_keeps_avatar (e : Key) (gs : GameState) :
  selectedEmoji (handleKeyPress e gs) = selectedEmoji gs
  /\ gameStarted (handleKeyPress e gs) = gameStarted gs.
Proof.
  unfold handleKeyPress. destruct (gameStarted gs) eqn:Hs; cbn; [|auto].
  destruct e; cbn; auto.
Qed.

Lemma press_all_invariant (P : GameState -> Prop) (keys : list Key) :
  (forall e gs, P gs -> P (handleKeyPress e gs)) ->
  forall gs, P gs -> P (press_all keys gs).
Proof.
  intros Hstep. unfold press_all.
  induction keys as [|e keys IH]; intros gs Hgs; [done|].
  simpl. apply IH, Hstep, Hgs.
Qed.

Lemma movement_facts (avatar : jsval) (keys : list Key) :
  on_field (press_all keys (started avatar))
  /\ on_lattice (press_all keys (started avatar))
  /\ selectedEmoji (press_all keys (started avatar)) = avatar.
Proof.
  split; [|split].
  - apply press_all_invariant; [apply handleKeyPress_on_field|].
    unfold on_field, started, PLAYER_SIZE, GRID_SIZE.
    cbn [position_x position_y]. change (inject_Z 500) with 500%Q.
    setoid_replace (20 / 2)%Q with 10%Q using relation Qeq by reflexivity. lra.
  - apply press_all_invariant; [apply handleKeyPress_on_lattice|].
    exists 250%Z, 250%Z. split; reflexivity.
  - apply (press_all_invariant (fun gs => selectedEmoji gs = avatar));
      [|reflexivity].
    intros e gs <-. apply handleKeyPress_keeps_avatar.
Qed.

(** X24.  The client keeps its player on the field.  A key press moves the
    player by at most [MOVE_SPEED] along one axis and never off the field
    [[PLAYER_SIZE/2, GRID_SIZE - PLAYER_SIZE/2]] in either coordinate; a
    key other than the four arrows, or any key before the game has
    started, changes nothing.  Hence after any sequence of key presses
    from the start position the player is on the field, at whole-number
    coordinates, with the avatar it chose. *)
Theorem movement_stays_on_field (avatar : jsval) (keys : list Key) :
  (forall e gs, on_field gs -> on_field (handleKeyPress e gs))
  /\ (forall e gs, on_field gs ->
      (position_x gs - MOVE_SPEED <= position_x (handleKeyPress e gs)
       /\ position_x (handleKeyPress e gs) <= position_x gs + MOVE_SPEED
       /\ position_y gs - MOVE_SPEED <= position_y (handleKeyPress e gs)
       /\ position_y (handleKeyPress e gs) <= position_y gs + MOVE_SPEED)%Q
      /\ (position_x (handleKeyPress e gs) = position_x gs
          \/ position_y (handleKeyPress e gs) = position_y gs))
  /\ (forall e gs, gameStarted gs = false -> handleKeyPress e gs = gs)
  /\ (forall gs, handleKeyPress OtherKey gs = gs)
  /\ on_field (press_all keys (started avatar))
  /\ on_lattice (press_all keys (started avatar))
  /\ selectedEmoji (press_all keys (started avatar)) = avatar.
Proof.
  split; [apply handleKeyPress_on_field|].
  split; [apply handleKeyPress_step|].
  split; [intros e gs Hs; unfold handleKeyPress; by rewrite Hs|].
  split; [intros gs; unfold handleKeyPress; by destruct (gameStarted gs)|].
  apply movement_facts.
Qed.

Lemma movement_stays_on_field_witness :
  on_field (handleKeyPress ArrowUp
              {| selectedEmoji := smiley; position_x := 250;
                 position_y := 10; gameStarted := true |})
  /\ handleKeyPress ArrowLeft
       {| selectedEmoji := smiley; position_x := 250; position_y := 10;
          gameStarted := false |}
     = {| selectedEmoji := smiley; position_x := 250; position_y := 10;
          gameStarted := false |}.
Proof.
  destruct (movement_stays_on_field smiley []) as (Hfield & _ & Hidle & _).
  split; [apply Hfield | apply Hidle; reflexivity].
  unfold on_field, PLAYER_SIZE, GRID_SIZE.
  cbn [position_x position_y]. change (inject_Z 500) with 500%Q.
  setoid_replace (20 / 2)%Q with 10%Q using relation Qeq by reflexivity. lra.
Defined.

(** A walk into the top left corner stops at [(10, 10)]. *)
Example walk_into_corner :
  let gs := press_all (replicate 20 ArrowUp ++ replicate 20 ArrowLeft)
              (started smiley) in
  (position_x gs == 10 /\ position_y gs == 10)%Q.
Proof. vm_compute. split; reflexivity. Qed.

(** ** The client and the worker together *)

Lemma Qfloor_half (q : Q) (z : Z) :
  (q == inject_Z z)%Q -> Qfloor (q + (1 # 2)) = z.
Proof.
  intros Hq.
  pose proof (Qfloor_le (q + (1 # 2))) as Hle.
  pose proof (Qlt_floor (q + (1 # 2))) as Hlt.
  assert (H1 : (inject_Z (Qfloor (q + (1 # 2))) < inject_Z (z + 1))%Q)
    by (rewrite inject_Z_plus; change (inject_Z 1) with 1%Q; lra).
  assert (H2 : (inject_Z z < inject_Z (Qfloor (q + (1 # 2)) + 1))%Q)
    by (rewrite inject_Z_plus in *; change (inject_Z 1) with 1%Q in *; lra).
  rewrite <- Zlt_Qlt in H1, H2. lia.
Qed.

(** X25.  What the client sends is stored as it is.  After any sequence of key
    presses from the start position, the position update of the client,
    sent by an authenticated caller with a truthy avatar to a working
    store, is stored and answered with exactly the client's coordinates:
    rounding changes nothing, and both coordinates are whole numbers of the
    grid [0, GRID_SIZE]. *)
Theorem client_position_is_stored_exactly (w : World) (userInfo : UserInfo)
    (avatar : jsval) (keys : list Key) (now : Z) :
  faults w = [] ->
  truthy avatar = true ->
  let gs := press_all keys (started avatar) in
  exists (zx zy : Z) (total : nat) (w' : World),
    post_position (Some (Some userInfo)) (Some (updatePlayerPosition_body gs))
      now w
    = (Returned (PositionUpdated (uuid userInfo) (NFin (inject_Z zx))
                   (NFin (inject_Z zy)) total), w')
    /\ players_of w' !! uuid userInfo
       = Some (Player.mk (uuid userInfo) (user_username userInfo) avatar
                 (NFin (inject_Z zx)) (NFin (inject_Z zy)) now)
    /\ (position_x gs == inject_Z zx /\ position_y gs == inject_Z zy)%Q
    /\ within_grid (NFin (inject_Z zx)) = true
    /\ within_grid (NFin (inject_Z zy)) = true.
Proof.
  intros Hf Havatar gs.
  destruct (movement_facts avatar keys) as (Hfield & (zx & zy & Hx & Hy) & He).
  fold gs in Hfield, Hx, Hy, He.
  unfold updatePlayerPosition_body. rewrite He.
  destruct (post_position_ok w userInfo (NFin (position_x gs))
              (NFin (position_y gs)) avatar now Hf Havatar)
    as (w' & Hrun & Hps & _).
  unfold upserted in Hrun, Hps. cbn [Math_round] in Hrun, Hps.
  rewrite (Qfloor_half _ zx Hx), (Qfloor_half _ zy Hy) in Hrun, Hps.
  exists zx, zy. do 2 eexists. split; [exact Hrun|].
  split; [unfold players_of; rewrite Hps; apply lookup_insert_eq|].
  split; [by split|].
  unfold on_field, PLAYER_SIZE, GRID_SIZE in Hfield.
  change (inject_Z 500) with 500%Q in Hfield.
  setoid_replace (20 / 2)%Q with 10%Q using relation Qeq in Hfield
    by reflexivity.
  destruct Hfield as (Hx1 & Hx2 & Hy1 & Hy2). rewrite Hx in Hx1, Hx2.
  rewrite Hy in Hy1, Hy2.
  unfold within_grid, GRID_SIZE. rewrite !Qfloor_Z.
  change (inject_Z 500) with 500%Q.
  split; repeat (apply andb_true_intro; split);
    try (apply Qeq_bool_iff; reflexivity); apply Qle_bool_iff; lra.
Qed.

Lemma client_position_is_stored_exactly_witness :
  exists (zx zy : Z) (total : nat) (w' : World),
    post_position (Some (Some ada))
      (Some (updatePlayerPosition_body
               (press_all [ArrowUp; ArrowRight] (started smiley))))
      5000 (sample_world [])
    = (Returned (PositionUpdated "u-ada" (NFin (inject_Z zx))
                   (NFin (inject_Z zy)) total), w')
    /\ within_grid (NFin (inject_Z zx)) = true.
Proof.
  destruct (client_position_is_stored_exactly (sample_world []) ada smiley
              [ArrowUp; ArrowRight] 5000 eq_refl eq_refl)
    as (zx & zy & total & w' & Hrun & _ & _ & Hgx & _).
  exists zx, zy, total, w'. split; [exact Hrun | exact Hgx].
Defined.

(** X26.  The client sends exactly the chat bodies the worker accepts.  The
    client sends nothing when the input trimmed of white space is empty;
    otherwise it sends the trimmed input, and for an authenticated caller
    the worker then never answers 400: it creates the message with the
    trimmed input cut to 200 code units as its body, whatever the store
    does. *)
Theorem client_chat_is_accepted (input : jsstring) (userInfo : UserInfo)
    (w : World) (now date : Z) (random : Q) :
  (sendChatMessage_body input = None <-> trim input = [])
  /\ (forall body, sendChatMessage_body input = Some body ->
      exists id total w',
        post_chat (Some (Some userInfo)) (Some body) now random date w
        = (Returned (ChatSent
                       (ChatMessage.mk id (user_username userInfo)
                          (take 200 (trim input)) date (uuid userInfo))
                       total), w')).
Proof.
  unfold sendChatMessage_body. split.
  - destruct (trim input) as [|c t]; cbn; split; done.
  - intros body Hbody.
    destruct (trim input) as [|c t] eqn:Ht; [discriminate|].
    cbn in Hbody. injection Hbody as <-.
    set (call := Build_ChatCall userInfo (c :: t) now random date).
    assert (Hvalid : trim (call_body call) <> []).
    { cbn [call call_body]. rewrite <- Ht, trim_idempotent, Ht. done. }
    destruct (send_valid call w Hvalid) as (h & w' & Hrun & _).
    unfold send, call_message, substring0 in Hrun. cbn [call_user call_body
      call_now call_random call_date call] in Hrun.
    rewrite <- Ht, trim_idempotent in Hrun.
    do 3 eexists. rewrite <- Ht. exact Hrun.
Qed.

Lemma client_chat_is_accepted_witness :
  exists id total w',
    post_chat (Some (Some ada)) (Some (ChatBody.mk (VStr [104%N; 105%N])))
      5000 (1 # 4) 5000 (sample_world [true; true])
    = (Returned (ChatSent
                   (ChatMessage.mk id "Ada"
                      (take 200 (trim [32%N; 104%N; 105%N; 32%N]))
                      5000 "u-ada") total), w').
Proof.
  apply (proj2 (client_chat_is_accepted [32%N; 104%N; 105%N; 32%N] ada
                  (sample_world [true; true]) 5000 5000 (1 # 4))).
  reflexivity.
Defined.
